(** * join_junctions: pooling of splice-junction evidence

    Shallow embedding of [src/bin/join_junctions.py] ([read_junctions],
    [_write_junctions], [run]) and the properties of its aggregation engine.

    Modelling conventions.
    - A Python [str] is a [string]; a character stands for a code point
      below 256.  [is_space] is [str.isspace] on that range.
    - A Python [int] is a [Z] (unbounded).  The interpreter's optional limit on
      the number of digits of a decimal conversion is not modelled: where the
      model raises, the program raises, and the program may raise in addition
      on a number of more digits than the limit in force.
    - An opened input file is the list of its lines; the result of [open] on
      the output path is the text written to it.
    - A Python [dict] keeps insertion order, which the writer observes, so the
      accumulator is an association list: a new key is appended, an existing
      key is updated where it stands.
    - An exception is a value [Raise e] of [result]; it ends the run. *)

From Stdlib Require Import String Ascii List ZArith Lia Bool Arith.
From Stdlib Require Import Permutation DecimalString.
From Stdlib Require DecimalPos.
Import ListNotations.

Open Scope string_scope.
Open Scope Z_scope.

(** ** Exceptions and the error monad *)

Inductive exn : Type :=
| ValueError_unpack (expected got : nat)   (* wrong number of values to unpack *)
| ValueError_int (literal : string).       (* invalid literal for int() *)

Inductive result (A : Type) : Type :=
| Ok (a : A)
| Raise (e : exn).

Arguments Ok {A} a.
Arguments Raise {A} e.

Definition bind {A B : Type} (r : result A) (k : A -> result B) : result B :=
  match r with
  | Ok a => k a
  | Raise e => Raise e
  end.

Notation "x <- r ;; k" := (bind r (fun x => k))
  (at level 61, r at next level, right associativity).

(** ** Python built-ins used by the script *)

Module Py.

(** [str.isspace] for one character. *)
Definition is_space (c : ascii) : bool :=
  let n := nat_of_ascii c in
  (((9 <=? n) && (n <=? 13)) || ((28 <=? n) && (n <=? 32))
   || (n =? 133) || (n =? 160))%nat.

Definition is_digit (c : ascii) : bool :=
  let n := nat_of_ascii c in ((48 <=? n) && (n <=? 57))%nat.

Definition digit_val (c : ascii) : Z := Z.of_nat (nat_of_ascii c) - 48.

Fixpoint lstrip (s : string) : string :=
  match s with
  | String c s' => if is_space c then lstrip s' else s
  | EmptyString => EmptyString
  end.

Fixpoint string_rev_app (s acc : string) : string :=
  match s with
  | String c s' => string_rev_app s' (String c acc)
  | EmptyString => acc
  end.

Definition string_rev (s : string) : string := string_rev_app s "".

Definition rstrip (s : string) : string := string_rev (lstrip (string_rev s)).

(** [s.strip()] *)
Definition strip (s : string) : string := rstrip (lstrip s).

(** [s.split()] with the token being read, oldest character last, in [tok]. *)
Fixpoint split_from (tok : string) (s : string) : list string :=
  match s with
  | EmptyString =>
      match tok with EmptyString => [] | _ => [string_rev tok] end
  | String c s' =>
      if is_space c then
        match tok with
        | EmptyString => split_from "" s'
        | _ => string_rev tok :: split_from "" s'
        end
      else split_from (String c tok) s'
  end.

(** [s.split()] *)
Definition split (s : string) : list string := split_from "" s.

(** The digits of an [int] literal after its sign: underscores are allowed
    between digits, one at a time. *)
Fixpoint int_digits (after_underscore : bool) (acc : Z) (s : string) : option Z :=
  match s with
  | EmptyString => if after_underscore then None else Some acc
  | String c s' =>
      if Ascii.eqb c "_" then
        if after_underscore then None else int_digits true acc s'
      else if is_digit c then int_digits false (10 * acc + digit_val c) s'
      else None
  end.

Definition int_unsigned (s : string) : option Z :=
  match s with
  | EmptyString => None
  | String c _ => if Ascii.eqb c "_" then None else int_digits false 0 s
  end.

(** The whitespace that [int] skips around a literal: that of C's
    [isspace], and the two whitespace characters above 127, which the
    conversion first turns into spaces.  The separators U+001C to U+001F are
    whitespace for [split] and [strip] and not for [int]. *)
Definition is_int_space (c : ascii) : bool :=
  let n := nat_of_ascii c in
  (((9 <=? n) && (n <=? 13)) || (n =? 32) || (n =? 133) || (n =? 160))%nat.

Fixpoint int_lstrip (s : string) : string :=
  match s with
  | String c s' => if is_int_space c then int_lstrip s' else s
  | EmptyString => EmptyString
  end.

Definition int_strip (s : string) : string :=
  string_rev (int_lstrip (string_rev (int_lstrip s))).

(** [int(s)] in base 10; [None] stands for [ValueError]. *)
Definition int_opt (s : string) : option Z :=
  match int_strip s with
  | String "-" s' => option_map Z.opp (int_unsigned s')
  | String "+" s' => int_unsigned s'
  | s' => int_unsigned s'
  end.

Definition int (s : string) : result Z :=
  match int_opt s with
  | Some z => Ok z
  | None => Raise (ValueError_int s)
  end.

(** [str(z)], as an f-string renders an [int]. *)
Definition str (z : Z) : string := NilZero.string_of_int (Z.to_int z).

End Py.

(** ** Data model *)

(** The value stored per key: the dict literal of [read_junctions]. *)
Record junction : Type := mkJunction {
  chr : string;
  start : string;
  end_ : string;
  strand : string;
  splice_sites : string;
  coverage : Z;
  multimap_coverage : Z;
  alignment_overhang : Z
}.

Definition JunctionHash : Type := list (string * junction).

Definition DEFAULT_JUNCTION_LENGTH : Z := 50.
Definition DEFAULT_JUNCTION_COVERAGE : Z := 5.

(** [accumulator[key]], [None] when the key is absent. *)
Fixpoint lookup (key : string) (acc : JunctionHash) : option junction :=
  match acc with
  | [] => None
  | (k, v) :: rest => if String.eqb key k then Some v else lookup key rest
  end.

(** In-place change of the entry stored under [key]. *)
Fixpoint update (key : string) (f : junction -> junction) (acc : JunctionHash)
  : JunctionHash :=
  match acc with
  | [] => []
  | (k, v) :: rest =>
      if String.eqb key k then (k, f v) :: rest
      else (k, v) :: update key f rest
  end.

(** [accumulator[key] = value] for a key that is absent. *)
Definition insert_new (key : string) (v : junction) (acc : JunctionHash)
  : JunctionHash := (acc ++ [(key, v)])%list.

Definition keys (acc : JunctionHash) : list string := map fst acc.

(** Position of [key] in insertion order. *)
Fixpoint index_of (key : string) (acc : JunctionHash) : option nat :=
  match acc with
  | [] => None
  | (k, _) :: rest =>
      if String.eqb key k then Some 0%nat
      else option_map S (index_of key rest)
  end.

(** The state of a run of [read_junctions]: the local [accumulator] and what
    [print] has sent to standard output. *)
Record state : Type := mkState {
  accumulator : JunctionHash;
  stdout : list string
}.

Definition print (msg : string) (st : state) : state :=
  mkState (accumulator st) (stdout st ++ [msg])%list.

Definition set_accumulator (acc : JunctionHash) (st : state) : state :=
  mkState acc (stdout st).

(** [f"{chr}:{start}-{end}:{strand}"] *)
Definition make_key (chr start end_ strand : string) : string :=
  chr ++ ":" ++ start ++ "-" ++ end_ ++ ":" ++ strand.

Definition skip_message (chr start end_ : string) : string :=
  "INFO: Skipping junction " ++ chr ++ ":" ++ start ++ "-" ++ end_
  ++ " as it is shorter than " ++ Py.str DEFAULT_JUNCTION_LENGTH.

(** The merge of an incoming record into the entry of its key. *)
Definition merge (c mc ao : Z) (v : junction) : junction :=
  mkJunction (chr v) (start v) (end_ v) (strand v) (splice_sites v)
    (coverage v + c) (multimap_coverage v + mc)
    (Z.max (alignment_overhang v) ao).

(** ** [read_junctions] *)

(** The body of the loop over the lines of a file.  [continue] is [Ok] of the
    state reached so far. *)
Definition read_line (min_junction_length : Z) (st : state) (line : string)
  : result state :=
  let fields := Py.split (Py.strip line) in
  if (List.length fields <? 8)%nat then Ok st
  else
    match fields with
    | [chr; start; end_; strand; splice_sites; annotated; coverage;
       multimap_coverage; alignment_overhang] =>
        e <- Py.int end_ ;;
        s <- Py.int start ;;
        if e - s <? min_junction_length then
          Ok (print (skip_message chr start end_) st)
        else
          a <- Py.int annotated ;;
          if a =? 1 then Ok st
          else
            let key := make_key chr start end_ strand in
            match lookup key (accumulator st) with
            | Some _ =>
                c <- Py.int coverage ;;
                mc <- Py.int multimap_coverage ;;
                ao <- Py.int alignment_overhang ;;
                Ok (set_accumulator
                      (update key (merge c mc ao) (accumulator st)) st)
            | None =>
                c <- Py.int coverage ;;
                mc <- Py.int multimap_coverage ;;
                ao <- Py.int alignment_overhang ;;
                let value :=
                  mkJunction chr start end_ strand splice_sites c mc ao in
                Ok (set_accumulator (insert_new key value (accumulator st)) st)
            end
    | _ => Raise (ValueError_unpack 9 (List.length fields))
    end.

(** [for line in f] *)
Fixpoint read_file (min_junction_length : Z) (st : state) (f : list string)
  : result state :=
  match f with
  | [] => Ok st
  | line :: rest =>
      st' <- read_line min_junction_length st line ;;
      read_file min_junction_length st' rest
  end.

(** [for junction in junctions] *)
Fixpoint read_files (min_junction_length : Z) (st : state)
  (junctions : list (list string)) : result state :=
  match junctions with
  | [] => Ok st
  | f :: rest =>
      st' <- read_file min_junction_length st f ;;
      read_files min_junction_length st' rest
  end.

Definition initial_state : state := mkState [] [].

Definition read_junctions_state (junctions : list (list string))
  (min_junction_length : Z) : result state :=
  read_files min_junction_length initial_state junctions.

Definition read_junctions (junctions : list (list string))
  (min_junction_length : Z) : result JunctionHash :=
  st <- read_junctions_state junctions min_junction_length ;;
  Ok (accumulator st).

(** ** [_write_junctions] *)

Definition TAB : string := String (ascii_of_nat 9) "".
Definition NL : string := String (ascii_of_nat 10) "".

(** The f-string of the writer. *)
Definition output_line (value : junction) : string :=
  chr value ++ TAB ++ start value ++ TAB ++ end_ value ++ TAB
  ++ strand value ++ TAB ++ splice_sites value ++ TAB ++ "1" ++ TAB
  ++ Py.str (coverage value) ++ TAB ++ Py.str (multimap_coverage value)
  ++ TAB ++ Py.str (alignment_overhang value).

(** The loop over [junctions.items()]; [f] is the text written so far. *)
Fixpoint write_items (f : string) (items : JunctionHash)
  (min_junction_coverage : Z) : string :=
  match items with
  | [] => f
  | (_key, value) :: rest =>
      if coverage value <? min_junction_coverage then
        write_items f rest min_junction_coverage
      else
        let line := output_line value in
        let f := f ++ line in
        let f := f ++ NL in
        write_items f rest min_junction_coverage
  end.

(** The content of [ALL_SJ_out_filtered.tab] after the call. *)
Definition _write_junctions (junctions : JunctionHash)
  (min_junction_coverage : Z) : string :=
  write_items "" junctions min_junction_coverage.

(** [run]: the content of the output file, or the exception that ended the
    run. *)
Definition run (junctions : list (list string))
  (min_junction_length min_junction_coverage : Z) : result string :=
  acc <- read_junctions junctions min_junction_length ;;
  Ok (_write_junctions acc min_junction_coverage).

(** ** A state-free reading of the loop body

    What [read_line] does with a line does not depend on the accumulator
    except for the choice between the two branches of [if key in
    accumulator]: [classify] computes the verdict on the line alone, and
    [apply_verdict] carries it out. *)

Inductive verdict : Type :=
| TooFew                                    (* [len(fields) < 8] *)
| TooShort (msg : string)                   (* the length gate, with its message *)
| Annotated                                 (* [int(annotated) == 1] *)
| Accept (key : string) (value : junction). (* reaches the accumulator *)

Definition classify_fields (min_junction_length : Z) (fields : list string)
  : result verdict :=
  if (List.length fields <? 8)%nat then Ok TooFew
  else
    match fields with
    | [chr; start; end_; strand; splice_sites; annotated; coverage;
       multimap_coverage; alignment_overhang] =>
        e <- Py.int end_ ;;
        s <- Py.int start ;;
        if e - s <? min_junction_length then
          Ok (TooShort (skip_message chr start end_))
        else
          a <- Py.int annotated ;;
          if a =? 1 then Ok Annotated
          else
            c <- Py.int coverage ;;
            mc <- Py.int multimap_coverage ;;
            ao <- Py.int alignment_overhang ;;
            Ok (Accept (make_key chr start end_ strand)
                  (mkJunction chr start end_ strand splice_sites c mc ao))
    | _ => Raise (ValueError_unpack 9 (List.length fields))
    end.

Definition classify (min_junction_length : Z) (line : string) : result verdict :=
  classify_fields min_junction_length (Py.split (Py.strip line)).

(** A record reaching the accumulator: merged when its key is there, inserted
    otherwise. *)
Definition ingest (key : string) (value : junction) (acc : JunctionHash)
  : JunctionHash :=
  match lookup key acc with
  | Some _ =>
      update key
        (merge (coverage value) (multimap_coverage value)
           (alignment_overhang value)) acc
  | None => insert_new key value acc
  end.

Definition apply_verdict (v : verdict) (st : state) : state :=
  match v with
  | TooFew | Annotated => st
  | TooShort msg => print msg st
  | Accept key value => set_accumulator (ingest key value (accumulator st)) st
  end.

(** The accepted record of a line, if it has one. *)
Definition accepted (min_junction_length : Z) (line : string)
  : option (string * junction) :=
  match classify min_junction_length line with
  | Ok (Accept key value) => Some (key, value)
  | _ => None
  end.

(** A line that raises no exception. *)
Definition line_ok (min_junction_length : Z) (line : string) : bool :=
  match classify min_junction_length line with
  | Ok _ => true
  | Raise _ => false
  end.

(** The accepted records of a sequence of lines, in order. *)
Fixpoint accepted_records (min_junction_length : Z) (lines : list string)
  : list (string * junction) :=
  match lines with
  | [] => []
  | line :: rest =>
      match accepted min_junction_length line with
      | Some kv => kv :: accepted_records min_junction_length rest
      | None => accepted_records min_junction_length rest
      end
  end.

Definition ingest_all (rs : list (string * junction)) (acc : JunctionHash)
  : JunctionHash :=
  fold_left (fun a kv => ingest (fst kv) (snd kv) a) rs acc.

(** The records of [rs] stored under [key], in order. *)
Definition matching (key : string) (rs : list (string * junction))
  : list junction :=
  map snd (filter (fun kv => String.eqb key (fst kv)) rs).

(** Folding a further record into what is stored under a key. *)
Definition merge_into (o : option junction) (r : junction) : option junction :=
  match o with
  | Some v =>
      Some (merge (coverage r) (multimap_coverage r) (alignment_overhang r) v)
  | None => Some r
  end.

Definition total (f : junction -> Z) (l : list junction) : Z :=
  fold_right (fun r s => f r + s) 0 l.

Fixpoint maximum (f : junction -> Z) (l : list junction) : option Z :=
  match l with
  | [] => None
  | r :: rest =>
      match maximum f rest with
      | Some z => Some (Z.max (f r) z)
      | None => Some (f r)
      end
  end.

(** The three counters of an entry. *)
Definition counters (v : junction) : Z * Z * Z :=
  (coverage v, multimap_coverage v, alignment_overhang v).

(** The five text columns of an entry. *)
Definition text_columns (v : junction) : list string :=
  [chr v; start v; end_ v; strand v; splice_sites v].

(** The JunctionKey of the specification's data model: chrom, start and end
    as integers, strand.  [None] when a coordinate is no integer. *)
Definition spec_JunctionKey (v : junction) : option (string * Z * Z * string) :=
  match Py.int_opt (start v), Py.int_opt (end_ v) with
  | Some s, Some e => Some (chr v, s, e, strand v)
  | _, _ => None
  end.

(** The written text, entry by entry: the lines of the entries that reach the
    coverage threshold, each followed by a newline, in insertion order. *)
Definition emitted_text (junctions : JunctionHash) (min_junction_coverage : Z)
  : string :=
  String.concat ""
    (map (fun kv => output_line (snd kv) ++ NL)
       (filter (fun kv => min_junction_coverage <=? coverage (snd kv))
          junctions)).

(** Two mappings agree on a key: it is in both or in neither, with the same
    three counters. *)
Definition agree_on (k : string) (acc1 acc2 : JunctionHash) : Prop :=
  (In k (keys acc1) <-> In k (keys acc2)) /\
  option_map counters (lookup k acc1) = option_map counters (lookup k acc2).

(** ** Notions for the further properties *)

(** A line that the test [len(fields) < 8] sends to [continue]. *)
Definition too_few (line : string) : bool :=
  (List.length (Py.split (Py.strip line)) <? 8)%nat.

Definition parses (s : string) : bool :=
  match Py.int_opt s with Some _ => true | None => false end.

(** A line on which the loop body raises nothing: fewer than eight fields,
    or nine fields with integer coordinates and, unless the length gate
    rejects it, an integer flag and, unless the flag is 1, three integer
    counters. *)
Definition well_formed (min_junction_length : Z) (line : string) : bool :=
  match Py.split (Py.strip line) with
  | [_; f1; f2; _; _; f5; f6; f7; f8] =>
      match Py.int_opt f2, Py.int_opt f1 with
      | Some e, Some s =>
          (e - s <? min_junction_length)
          || match Py.int_opt f5 with
             | Some a => (a =? 1) || (parses f6 && parses f7 && parses f8)
             | None => false
             end
      | _, _ => false
      end
  | fields => (List.length fields <? 8)%nat
  end.

(** The lines that the writer sends to the file, each with its newline. *)
Definition written_lines (junctions : JunctionHash) (min_junction_coverage : Z)
  : list string :=
  map (fun kv => output_line (snd kv) ++ NL)
    (filter (fun kv => min_junction_coverage <=? coverage (snd kv)) junctions).


(** A string free of whitespace. *)
Fixpoint no_space (s : string) : bool :=
  match s with
  | EmptyString => true
  | String c s' => negb (Py.is_space c) && no_space s'
  end.

(** A field as [split] yields it: not empty and free of whitespace. *)
Definition is_token (s : string) : bool :=
  match s with
  | EmptyString => false
  | _ => no_space s
  end.

(** Occurrence of a character in a string. *)
Fixpoint has_char (c : ascii) (s : string) : bool :=
  match s with
  | EmptyString => false
  | String d s' => Ascii.eqb c d || has_char c s'
  end.

(** A string of whitespace only. *)
Fixpoint all_space (s : string) : bool :=
  match s with
  | EmptyString => true
  | String c s' => Py.is_space c && all_space s'
  end.

(** A string of decimal digits only. *)
Fixpoint all_digits (s : string) : bool :=
  match s with
  | EmptyString => true
  | String c s' => Py.is_digit c && all_digits s'
  end.

(** What the key needs of a coordinate: no colon, a minus sign at the
    front only, and a last character that is no minus sign. *)
Definition coordinate_shape (l : list ascii) : Prop :=
  ~ In ":"%char l /\
  (forall pre post, l = (pre ++ "-"%char :: post)%list -> pre = []) /\
  (exists pre d, l = (pre ++ [d])%list /\ d <> "-"%char).

(** ** Lines used as examples *)

Definition line_a : string := "chr1  100  200  +  GT/AG  0  3  1  10".
Definition line_b : string := "chr1  100  200  +  GT/AG  0  4  2  12".
Definition line_eight : string := "chr1 100 200 + GT/AG 0 3 1".
Definition line_ten : string := "chr1 100 200 + GT/AG 0 3 1 10 extra".
Definition line_nine : string := "chr1 100 200 + GT/AG 0 3 1 10".
Definition line_padded : string := "chr1 0100 200 + GT/AG 0 4 2 12".

(** ** Lemmas on the accumulator *)

Section Accumulator.

Lemma lookup_update (k k' : string) (f : junction -> junction)
  (acc : JunctionHash) :
  lookup k' (update k f acc) =
  if String.eqb k' k then option_map f (lookup k acc) else lookup k' acc.
Proof.
  induction acc as [|[a v] acc IH]; simpl.
  - now destruct (String.eqb k' k).
  - destruct (String.eqb k a) eqn:Hka; simpl.
    + apply String.eqb_eq in Hka; subst a.
      now destruct (String.eqb k' k).
    + destruct (String.eqb k' a) eqn:Hk'a.
      * apply String.eqb_eq in Hk'a; subst a.
        destruct (String.eqb k' k) eqn:E; trivial.
        apply String.eqb_eq in E; subst k'.
        rewrite String.eqb_refl in Hka; discriminate.
      * exact IH.
Qed.

Lemma lookup_insert_new (k k' : string) (v : junction) (acc : JunctionHash) :
  lookup k' (insert_new k v acc) =
  match lookup k' acc with
  | Some x => Some x
  | None => if String.eqb k' k then Some v else None
  end.
Proof.
  unfold insert_new.
  induction acc as [|[a w] acc IH]; simpl.
  - reflexivity.
  - now destruct (String.eqb k' a).
Qed.

Lemma lookup_ingest (k k' : string) (v : junction) (acc : JunctionHash) :
  lookup k' (ingest k v acc) =
  if String.eqb k' k then merge_into (lookup k acc) v else lookup k' acc.
Proof.
  unfold ingest, merge_into.
  destruct (lookup k acc) as [old|] eqn:Hk.
  - rewrite lookup_update, Hk. reflexivity.
  - rewrite lookup_insert_new.
    destruct (String.eqb k' k) eqn:E.
    + apply String.eqb_eq in E; subst k'. now rewrite Hk.
    + now destruct (lookup k' acc).
Qed.

Lemma keys_update (k : string) (f : junction -> junction) (acc : JunctionHash) :
  keys (update k f acc) = keys acc.
Proof.
  unfold keys.
  induction acc as [|[a v] acc IH]; simpl; trivial.
  destruct (String.eqb k a); simpl; congruence.
Qed.

Lemma keys_insert_new (k : string) (v : junction) (acc : JunctionHash) :
  keys (insert_new k v acc) = (keys acc ++ [k])%list.
Proof. unfold keys, insert_new. now rewrite map_app. Qed.

Lemma lookup_None_keys (k : string) (acc : JunctionHash) :
  lookup k acc = None <-> ~ In k (keys acc).
Proof.
  induction acc as [|[a v] acc IH]; simpl.
  - tauto.
  - destruct (String.eqb k a) eqn:E.
    + apply String.eqb_eq in E. split; [discriminate | intros H; exfalso; auto].
    + apply String.eqb_neq in E. rewrite IH. split.
      * intros H [H1 | H1]; [congruence | auto].
      * tauto.
Qed.

Lemma lookup_Some_keys (k : string) (acc : JunctionHash) :
  (exists v, lookup k acc = Some v) <-> In k (keys acc).
Proof.
  destruct (lookup k acc) as [v|] eqn:E.
  - split; [intros _ | intros _; eauto].
    destruct (in_dec string_dec k (keys acc)) as [H | H]; trivial.
    apply lookup_None_keys in H. congruence.
  - split.
    + intros [v H]; discriminate.
    + intros H. apply lookup_None_keys in E. contradiction.
Qed.

Lemma lookup_In (k : string) (v : junction) (acc : JunctionHash) :
  lookup k acc = Some v -> In (k, v) acc.
Proof.
  induction acc as [|[a w] acc IH]; simpl; [discriminate|].
  destruct (String.eqb k a) eqn:E.
  - apply String.eqb_eq in E. intros [= ->]. left; congruence.
  - auto.
Qed.

Lemma In_lookup (k : string) (v : junction) (acc : JunctionHash) :
  NoDup (keys acc) -> In (k, v) acc -> lookup k acc = Some v.
Proof.
  induction acc as [|[a w] acc IH]; simpl; [tauto|].
  intros Hnd [H | H].
  - inversion H; subst. now rewrite String.eqb_refl.
  - inversion Hnd as [|? ? Hnotin Hnd']; subst.
    destruct (String.eqb k a) eqn:E.
    + apply String.eqb_eq in E; subst a.
      exfalso. apply Hnotin. unfold keys.
      change k with (fst (k, v)). now apply in_map.
    + auto.
Qed.

Lemma keys_ingest (k : string) (v : junction) (acc : JunctionHash) :
  keys (ingest k v acc) =
  match lookup k acc with
  | Some _ => keys acc
  | None => (keys acc ++ [k])%list
  end.
Proof.
  unfold ingest. destruct (lookup k acc).
  - apply keys_update.
  - apply keys_insert_new.
Qed.

Lemma NoDup_keys_ingest (k : string) (v : junction) (acc : JunctionHash) :
  NoDup (keys acc) -> NoDup (keys (ingest k v acc)).
Proof.
  intros Hnd. rewrite keys_ingest.
  destruct (lookup k acc) eqn:E; trivial.
  apply lookup_None_keys in E.
  apply NoDup_app; [trivial | repeat constructor; simpl; tauto |].
  intros x Hx [<- | []]. contradiction.
Qed.

Lemma NoDup_keys_ingest_all (rs : list (string * junction)) (acc : JunctionHash) :
  NoDup (keys acc) -> NoDup (keys (ingest_all rs acc)).
Proof.
  revert acc. induction rs as [|[k v] rs IH]; simpl; intros acc H; trivial.
  apply IH. now apply NoDup_keys_ingest.
Qed.

End Accumulator.

(** ** Lemmas on the loops *)

Section Loops.

Variable m : Z.

Lemma read_line_classify (st : state) (line : string) :
  read_line m st line = (v <- classify m line ;; Ok (apply_verdict v st)).
Proof.
  unfold read_line, classify, classify_fields.
  destruct (List.length (Py.split (Py.strip line)) <? 8)%nat; [reflexivity|].
  destruct (Py.split (Py.strip line))
    as [|f0 [|f1 [|f2 [|f3 [|f4 [|f5 [|f6 [|f7 [|f8 [|f9 fs]]]]]]]]]];
    try reflexivity.
  destruct (Py.int f2) as [e|]; simpl; [|reflexivity].
  destruct (Py.int f1) as [s|]; simpl; [|reflexivity].
  destruct (e - s <? m); [reflexivity|].
  destruct (Py.int f5) as [a|]; simpl; [|reflexivity].
  destruct (a =? 1); [reflexivity|].
  destruct (lookup (make_key f0 f1 f2 f3) (accumulator st)) eqn:L;
    destruct (Py.int f6) as [c|]; simpl; trivial;
    destruct (Py.int f7) as [mc|]; simpl; trivial;
    destruct (Py.int f8) as [ao|]; simpl; trivial;
    unfold ingest; rewrite L; reflexivity.
Qed.

Lemma accumulator_apply_verdict (v : verdict) (st : state) :
  accumulator (apply_verdict v st) =
  match v with
  | Accept key value => ingest key value (accumulator st)
  | _ => accumulator st
  end.
Proof. now destruct v. Qed.

(** One line: it raises exactly when [line_ok] fails, and otherwise changes
    the accumulator by its accepted record alone. *)
Lemma read_line_ok (st : state) (line : string) :
  line_ok m line = true ->
  exists st', read_line m st line = Ok st' /\
    accumulator st' = ingest_all (accepted_records m [line]) (accumulator st).
Proof.
  unfold line_ok. intros H. rewrite read_line_classify.
  simpl. unfold accepted.
  destruct (classify m line) as [v|e]; [|discriminate].
  simpl. eexists; split; [reflexivity|].
  rewrite accumulator_apply_verdict. now destruct v.
Qed.

Lemma read_line_Ok_inv (st st' : state) (line : string) :
  read_line m st line = Ok st' -> line_ok m line = true.
Proof.
  unfold line_ok. rewrite read_line_classify.
  now destruct (classify m line).
Qed.

Lemma read_line_raise (st : state) (line : string) :
  line_ok m line = false -> exists e, read_line m st line = Raise e.
Proof.
  unfold line_ok. rewrite read_line_classify.
  destruct (classify m line) as [v|e]; [discriminate|]. intros _. now exists e.
Qed.

Lemma accepted_records_app (l1 l2 : list string) :
  accepted_records m (l1 ++ l2) =
  (accepted_records m l1 ++ accepted_records m l2)%list.
Proof.
  induction l1 as [|l l1 IH]; simpl; trivial.
  destruct (accepted m l); simpl; congruence.
Qed.

Lemma ingest_all_app (r1 r2 : list (string * junction)) (acc : JunctionHash) :
  ingest_all (r1 ++ r2) acc = ingest_all r2 (ingest_all r1 acc).
Proof. unfold ingest_all. apply fold_left_app. Qed.

Lemma read_file_ok (lines : list string) (st : state) :
  forallb (line_ok m) lines = true ->
  exists st', read_file m st lines = Ok st' /\
    accumulator st' = ingest_all (accepted_records m lines) (accumulator st).
Proof.
  revert st. induction lines as [|l lines IH]; simpl; intros st H.
  - now exists st.
  - apply andb_prop in H as [Hl Hr].
    destruct (read_line_ok st l Hl) as [st1 [E1 A1]].
    rewrite E1. simpl.
    destruct (IH st1 Hr) as [st2 [E2 A2]].
    exists st2. split; trivial.
    rewrite A2, A1. simpl.
    destruct (accepted m l); reflexivity.
Qed.

Lemma read_file_Ok_inv (lines : list string) (st st' : state) :
  read_file m st lines = Ok st' -> forallb (line_ok m) lines = true.
Proof.
  revert st. induction lines as [|l lines IH]; simpl; intros st H; trivial.
  destruct (read_line m st l) as [st1|e] eqn:E; [|discriminate].
  simpl in H. rewrite (read_line_Ok_inv _ _ _ E). simpl. eauto.
Qed.

Lemma read_file_app (l1 l2 : list string) (st : state) :
  read_file m st (l1 ++ l2) =
  (st' <- read_file m st l1 ;; read_file m st' l2).
Proof.
  revert st. induction l1 as [|l l1 IH]; simpl; intros st; trivial.
  destruct (read_line m st l); simpl; auto.
Qed.

(** The loop over the files is the loop over their lines, one file after the
    other. *)
Lemma read_files_concat (files : list (list string)) (st : state) :
  read_files m st files = read_file m st (concat files).
Proof.
  revert st. induction files as [|f files IH]; simpl; intros st; trivial.
  rewrite read_file_app. destruct (read_file m st f); simpl; auto.
Qed.

Lemma read_junctions_ok (files : list (list string)) :
  forallb (line_ok m) (concat files) = true ->
  read_junctions files m =
  Ok (ingest_all (accepted_records m (concat files)) []).
Proof.
  intros H. unfold read_junctions, read_junctions_state.
  rewrite read_files_concat.
  destruct (read_file_ok _ initial_state H) as [st' [E A]].
  rewrite E. simpl. now rewrite A.
Qed.

Lemma read_junctions_Ok_inv (files : list (list string)) (acc : JunctionHash) :
  read_junctions files m = Ok acc ->
  forallb (line_ok m) (concat files) = true /\
  acc = ingest_all (accepted_records m (concat files)) [].
Proof.
  intros H.
  assert (Hok : forallb (line_ok m) (concat files) = true).
  { unfold read_junctions, read_junctions_state in H.
    rewrite read_files_concat in H.
    destruct (read_file m initial_state (concat files)) as [st|e] eqn:E;
      [|discriminate].
    eapply read_file_Ok_inv; eauto. }
  split; trivial.
  rewrite (read_junctions_ok _ Hok) in H. congruence.
Qed.

End Loops.

(** ** What is stored under a key *)

Section Stored.

Lemma lookup_ingest_all (k : string) (rs : list (string * junction))
  (acc : JunctionHash) :
  lookup k (ingest_all rs acc) =
  fold_left merge_into (matching k rs) (lookup k acc).
Proof.
  revert acc. induction rs as [|[a v] rs IH]; simpl; intros acc; trivial.
  unfold ingest_all in *. simpl. rewrite IH, lookup_ingest.
  unfold matching. simpl.
  destruct (String.eqb k a) eqn:E; simpl; trivial.
  apply String.eqb_eq in E. now subst a.
Qed.

Lemma merge_into_counters (l : list junction) (v : junction) :
  exists w, fold_left merge_into l (Some v) = Some w /\
    text_columns w = text_columns v /\
    coverage w = coverage v + total coverage l /\
    multimap_coverage w = multimap_coverage v + total multimap_coverage l /\
    alignment_overhang w =
      match maximum alignment_overhang l with
      | Some z => Z.max (alignment_overhang v) z
      | None => alignment_overhang v
      end.
Proof.
  revert v. induction l as [|r l IH]; simpl; intros v.
  - exists v. repeat split; lia.
  - destruct (IH (merge (coverage r) (multimap_coverage r)
                    (alignment_overhang r) v)) as [w [E [T [C [M A]]]]].
    exists w. split; [exact E|]. simpl in *.
    repeat split; try lia; trivial.
    rewrite A. destruct (maximum alignment_overhang l); lia.
Qed.

(** The entry of a key holds the text of the first record stored under it,
    the sums of the two coverages and the largest overhang. *)
Lemma stored_under_key (k : string) (rs : list (string * junction)) :
  match matching k rs with
  | [] => lookup k (ingest_all rs []) = None
  | r :: l =>
      exists w, lookup k (ingest_all rs []) = Some w /\
        text_columns w = text_columns r /\
        coverage w = total coverage (r :: l) /\
        multimap_coverage w = total multimap_coverage (r :: l) /\
        Some (alignment_overhang w) = maximum alignment_overhang (r :: l)
  end.
Proof.
  rewrite lookup_ingest_all. simpl.
  destruct (matching k rs) as [|r l]; simpl; trivial.
  destruct (merge_into_counters l r) as [w [E [T [C [M A]]]]].
  exists w. repeat split; trivial.
  rewrite A. now destruct (maximum alignment_overhang l).
Qed.

End Stored.

(** ** Lines of nine fields *)

Section NineFields.

Variable m : Z.

Lemma classify_nine (line f0 f1 f2 f3 f4 f5 f6 f7 f8 : string) :
  Py.split (Py.strip line) = [f0; f1; f2; f3; f4; f5; f6; f7; f8] ->
  classify m line =
  (e <- Py.int f2 ;;
   s <- Py.int f1 ;;
   if e - s <? m then Ok (TooShort (skip_message f0 f1 f2))
   else
     a <- Py.int f5 ;;
     if a =? 1 then Ok Annotated
     else
       c <- Py.int f6 ;;
       mc <- Py.int f7 ;;
       ao <- Py.int f8 ;;
       Ok (Accept (make_key f0 f1 f2 f3) (mkJunction f0 f1 f2 f3 f4 c mc ao))).
Proof. intros H. unfold classify. rewrite H. reflexivity. Qed.

(** The conditions under which a line of nine fields reaches the
    accumulator. *)
Lemma accepted_nine (line f0 f1 f2 f3 f4 f5 f6 f7 f8 : string)
  (e s a c mc ao : Z) :
  Py.split (Py.strip line) = [f0; f1; f2; f3; f4; f5; f6; f7; f8] ->
  Py.int f2 = Ok e -> Py.int f1 = Ok s -> m <= e - s ->
  Py.int f5 = Ok a -> a <> 1 ->
  Py.int f6 = Ok c -> Py.int f7 = Ok mc -> Py.int f8 = Ok ao ->
  classify m line =
  Ok (Accept (make_key f0 f1 f2 f3) (mkJunction f0 f1 f2 f3 f4 c mc ao)).
Proof.
  intros H He Hs Hlen Ha Hna Hc Hmc Hao.
  rewrite (classify_nine _ _ _ _ _ _ _ _ _ _ H), He, Hs. simpl.
  destruct (Z.ltb_spec (e - s) m) as [L | L]; [lia|].
  rewrite Ha. simpl.
  destruct (Z.eqb_spec a 1) as [E | E]; [contradiction|].
  now rewrite Hc, Hmc, Hao.
Qed.

Lemma accepted_inv (line k : string) (v : junction) :
  accepted m line = Some (k, v) ->
  exists f5 f6 f7 f8 e s a,
    Py.split (Py.strip line) =
      [chr v; start v; end_ v; strand v; splice_sites v; f5; f6; f7; f8] /\
    k = make_key (chr v) (start v) (end_ v) (strand v) /\
    Py.int (end_ v) = Ok e /\ Py.int (start v) = Ok s /\ m <= e - s /\
    Py.int f5 = Ok a /\ a <> 1 /\
    Py.int f6 = Ok (coverage v) /\
    Py.int f7 = Ok (multimap_coverage v) /\
    Py.int f8 = Ok (alignment_overhang v).
Proof.
  unfold accepted, classify, classify_fields.
  destruct (List.length (Py.split (Py.strip line)) <? 8)%nat; [discriminate|].
  destruct (Py.split (Py.strip line))
    as [|f0 [|f1 [|f2 [|f3 [|f4 [|f5 [|f6 [|f7 [|f8 [|f9 fs]]]]]]]]]];
    try discriminate.
  destruct (Py.int f2) as [e|] eqn:He; simpl; [|discriminate].
  destruct (Py.int f1) as [s|] eqn:Hs; simpl; [|discriminate].
  destruct (Z.ltb_spec (e - s) m) as [L | L]; [discriminate|].
  destruct (Py.int f5) as [a|] eqn:Ha; simpl; [|discriminate].
  destruct (Z.eqb_spec a 1) as [E | E]; [discriminate|].
  destruct (Py.int f6) as [c|] eqn:Hc; simpl; [|discriminate].
  destruct (Py.int f7) as [mc|] eqn:Hmc; simpl; [|discriminate].
  destruct (Py.int f8) as [ao|] eqn:Hao; simpl; [|discriminate].
  intros [= <- <-]. simpl.
  exists f5, f6, f7, f8, e, s, a. repeat split; trivial.
Qed.

Lemma read_line_too_few (st : state) (line : string) :
  (List.length (Py.split (Py.strip line)) < 8)%nat ->
  read_line m st line = Ok st.
Proof.
  intros H. unfold read_line.
  destruct (Nat.ltb_spec (List.length (Py.split (Py.strip line))) 8);
    [reflexivity | lia].
Qed.

(** The unpacking into nine names raises for every other number of fields
    that passes the test [len(fields) < 8]. *)
Lemma read_line_unpack (st : state) (line : string) :
  (8 <= List.length (Py.split (Py.strip line)))%nat ->
  List.length (Py.split (Py.strip line)) <> 9%nat ->
  read_line m st line =
  Raise (ValueError_unpack 9 (List.length (Py.split (Py.strip line)))).
Proof.
  intros H8 H9. unfold read_line.
  destruct (Nat.ltb_spec (List.length (Py.split (Py.strip line))) 8);
    [lia|].
  destruct (Py.split (Py.strip line))
    as [|f0 [|f1 [|f2 [|f3 [|f4 [|f5 [|f6 [|f7 [|f8 [|f9 fs]]]]]]]]]];
    simpl in *; try reflexivity; lia.
Qed.

End NineFields.

(** ** The properties of the engine *)

(** C1.  An accepted record whose key is in the mapping adds its two
    coverages to the entry, raises the entry's overhang to the larger of the
    two and leaves the text columns, the splice-site code among them, as they
    were; and the two one-line files of the worked example give the single
    line [chr1 100 200 + GT/AG 1 7 3 12]. *)
Theorem merge_semantics (m : Z) (st : state)
  (line f0 f1 f2 f3 f4 f5 f6 f7 f8 : string) (e s a c mc ao : Z)
  (old : junction) :
  Py.split (Py.strip line) = [f0; f1; f2; f3; f4; f5; f6; f7; f8] ->
  Py.int f2 = Ok e -> Py.int f1 = Ok s -> m <= e - s ->
  Py.int f5 = Ok a -> a <> 1 ->
  Py.int f6 = Ok c -> Py.int f7 = Ok mc -> Py.int f8 = Ok ao ->
  lookup (make_key f0 f1 f2 f3) (accumulator st) = Some old ->
  (exists st' new,
     read_line m st line = Ok st' /\
     lookup (make_key f0 f1 f2 f3) (accumulator st') = Some new /\
     coverage new = coverage old + c /\
     multimap_coverage new = multimap_coverage old + mc /\
     alignment_overhang new = Z.max (alignment_overhang old) ao /\
     splice_sites new = splice_sites old /\
     text_columns new = text_columns old /\
     keys (accumulator st') = keys (accumulator st)) /\
  run [[line_a]; [line_b]] 50 5 =
  Ok ("chr1" ++ TAB ++ "100" ++ TAB ++ "200" ++ TAB ++ "+" ++ TAB ++ "GT/AG"
      ++ TAB ++ "1" ++ TAB ++ "7" ++ TAB ++ "3" ++ TAB ++ "12" ++ NL).
Proof.
  intros H He Hs Hlen Ha Hna Hc Hmc Hao Hold.
  split; [|reflexivity].
  rewrite read_line_classify.
  rewrite (accepted_nine m _ _ _ _ _ _ _ _ _ _ _ _ _ _ _ _
             H He Hs Hlen Ha Hna Hc Hmc Hao).
  simpl. eexists; eexists. split; [reflexivity|]. simpl.
  rewrite lookup_ingest, String.eqb_refl, Hold. simpl.
  split; [reflexivity|]. simpl.
  repeat split; trivial.
  rewrite keys_ingest, Hold. reflexivity.
Qed.

Lemma merge_semantics_witness :
  exists st' new,
    read_line 50
      (mkState [("chr1:100-200:+",
                 mkJunction "chr1" "100" "200" "+" "GT/AG" 3 1 10)] [])
      line_b = Ok st' /\
    lookup "chr1:100-200:+" (accumulator st') = Some new /\
    counters new = (7, 3, 12) /\ splice_sites new = "GT/AG".
Proof.
  destruct (merge_semantics 50
              (mkState [("chr1:100-200:+",
                 mkJunction "chr1" "100" "200" "+" "GT/AG" 3 1 10)] [])
              line_b "chr1" "100" "200" "+" "GT/AG" "0" "4" "2" "12"
              200 100 0 4 2 12
              (mkJunction "chr1" "100" "200" "+" "GT/AG" 3 1 10))
    as [[st' [new [E [L [C [M [A [S _]]]]]]]] _];
    try reflexivity; try lia.
  exists st', new. split; [exact E|]. split; [exact L|].
  unfold counters. rewrite C, M, A, S. split; reflexivity.
Defined.

(** C2.  A line of eight fields passes the test [len(fields) < 8] and
    fails in the unpacking into nine names: the run ends with a
    [ValueError]. *)
Theorem eight_fields_raise :
  List.length (Py.split (Py.strip line_eight)) = 8%nat /\
  read_junctions [[line_eight]] 50 = Raise (ValueError_unpack 9 8) /\
  run [[line_eight]] 50 5 = Raise (ValueError_unpack 9 8).
Proof. repeat split. Qed.

(** C3, as the claim states it, fails: a tenth column ends the run with a
    [ValueError], where the same line without it is accepted. *)
Lemma extra_column_counterexample :
  List.length (Py.split (Py.strip line_ten)) = 10%nat /\
  read_junctions [[line_ten]] 50 = Raise (ValueError_unpack 9 10) /\
  read_junctions [[line_nine]] 50 =
  Ok [("chr1:100-200:+", mkJunction "chr1" "100" "200" "+" "GT/AG" 3 1 10)].
Proof. repeat split. Qed.

(** C3, amended.  A line of more than nine fields is not processed: the
    unpacking of its fields into nine names raises a [ValueError], and a run
    over files that hold such a line ends with an exception and writes
    nothing. *)
Theorem extra_columns_raise (m mc : Z) (st : state) (line : string)
  (files : list (list string)) :
  (9 < List.length (Py.split (Py.strip line)))%nat ->
  In line (concat files) ->
  read_line m st line =
    Raise (ValueError_unpack 9 (List.length (Py.split (Py.strip line)))) /\
  exists e, run files m mc = Raise e.
Proof.
  intros H Hin.
  assert (R : forall st0, read_line m st0 line =
    Raise (ValueError_unpack 9 (List.length (Py.split (Py.strip line))))).
  { intros st0. apply read_line_unpack; lia. }
  split; [apply R|].
  unfold run. destruct (read_junctions files m) as [acc|e] eqn:E.
  - exfalso. apply read_junctions_Ok_inv in E as [Hok _].
    rewrite forallb_forall in Hok. specialize (Hok line Hin).
    unfold line_ok in Hok.
    specialize (R initial_state). rewrite read_line_classify in R.
    destruct (classify m line); simpl in R; discriminate.
  - now exists e.
Qed.

Lemma extra_columns_raise_witness :
  read_line 50 initial_state line_ten = Raise (ValueError_unpack 9 10) /\
  exists e, run [[line_nine]; [line_ten]] 50 5 = Raise e.
Proof.
  apply (extra_columns_raise 50 5 initial_state line_ten
           [[line_nine]; [line_ten]]).
  - vm_compute. lia.
  - simpl. right. left. reflexivity.
Defined.

Lemma concat_empty_sep (l : list string) :
  String.concat "" l = fold_right String.append "" l.
Proof.
  induction l as [|x [|y l] IH]; simpl in *; trivial.
  - induction x; simpl; congruence.
  - now rewrite IH.
Qed.

Lemma string_app_assoc (a b c : string) : (a ++ b) ++ c = a ++ b ++ c.
Proof. induction a; simpl; congruence. Qed.

Lemma write_items_spec (f : string) (items : JunctionHash) (mc : Z) :
  write_items f items mc = f ++ emitted_text items mc.
Proof.
  unfold emitted_text. rewrite concat_empty_sep.
  revert f. induction items as [|[k v] items IH]; simpl; intros f.
  - induction f; simpl; congruence.
  - destruct (Z.ltb_spec (coverage v) mc) as [L | L];
      destruct (Z.leb_spec mc (coverage v)) as [G | G]; try lia.
    + apply IH.
    + rewrite IH. simpl. now rewrite !string_app_assoc.
Qed.

(** C8.  The writer emits the line of an entry exactly when the entry's
    pooled coverage is at least [min_junction_coverage]: the file holds the
    lines of those entries, in insertion order, and nothing else.  An entry
    whose coverage equals the threshold is written, one whose coverage is one
    less is not. *)
Theorem coverage_emission_filter :
  (forall junctions mc,
     _write_junctions junctions mc = emitted_text junctions mc) /\
  (forall key value mc,
     _write_junctions [(key, value)] mc =
     if mc <=? coverage value then output_line value ++ NL else "") /\
  (forall key value,
     _write_junctions [(key, value)] (coverage value) =
     output_line value ++ NL) /\
  (forall key value,
     _write_junctions [(key, value)] (coverage value + 1) = "").
Proof.
  assert (H1 : forall key value mc,
     _write_junctions [(key, value)] mc =
     if mc <=? coverage value then output_line value ++ NL else "").
  { intros key value mc. unfold _write_junctions. simpl.
    destruct (Z.ltb_spec (coverage value) mc) as [L | L];
      destruct (Z.leb_spec mc (coverage value)) as [G | G]; try lia;
      reflexivity. }
  repeat split.
  - intros. unfold _write_junctions. now rewrite write_items_spec.
  - exact H1.
  - intros. rewrite H1. now rewrite Z.leb_refl.
  - intros. rewrite H1.
    destruct (Z.leb_spec (coverage value + 1) (coverage value)); [lia|].
    reflexivity.
Qed.



(** ** Records and the entries they end in *)

Section Records.

Variable m : Z.

Lemma accepted_records_In (lines : list string) (kv : string * junction) :
  In kv (accepted_records m lines) <->
  exists line, In line lines /\ accepted m line = Some kv.
Proof.
  induction lines as [|l lines IH]; simpl.
  - split; [tauto | intros [line [[] _]]].
  - destruct (accepted m l) as [kv'|] eqn:E; simpl; rewrite IH; split.
    + intros [<- | [line [H1 H2]]]; eauto.
    + intros [line [[<- | H1] H2]]; [left; congruence | eauto].
    + intros [line [H1 H2]]; eauto.
    + intros [line [[<- | H1] H2]]; [congruence | eauto].
Qed.

Lemma matching_app (k : string) (r1 r2 : list (string * junction)) :
  matching k (r1 ++ r2) = (matching k r1 ++ matching k r2)%list.
Proof. unfold matching. now rewrite filter_app, map_app. Qed.

Lemma matching_nil (k : string) (rs : list (string * junction)) :
  (forall kv, In kv rs -> fst kv <> k) -> matching k rs = [].
Proof.
  unfold matching. induction rs as [|[a v] rs IH]; simpl; intros H; trivial.
  destruct (String.eqb_spec k a) as [E | E].
  - exfalso. apply (H (a, v)); auto.
  - apply IH. intros kv Hkv. apply H. now right.
Qed.

Lemma matching_In (k : string) (v : junction) (rs : list (string * junction)) :
  In v (matching k rs) <-> In (k, v) rs.
Proof.
  unfold matching. rewrite in_map_iff. split.
  - intros [[a w] [E H]]. simpl in E. subst w.
    apply filter_In in H as [H1 H2]. simpl in H2.
    apply String.eqb_eq in H2. now subst a.
  - intros H. exists (k, v). split; trivial.
    apply filter_In. split; trivial. simpl. apply String.eqb_refl.
Qed.

Lemma fold_merge_into_Some (l : list junction) (o : option junction) :
  o <> None \/ l <> [] -> exists w, fold_left merge_into l o = Some w.
Proof.
  revert o. induction l as [|r l IH]; simpl; intros o H.
  - destruct o as [v|]; [eauto | destruct H; congruence].
  - apply IH. left. destruct o; discriminate.
Qed.

(** Every record that was ingested has its key in the mapping. *)
Lemma ingested_key_present (rs : list (string * junction))
  (acc : JunctionHash) (k : string) (v : junction) :
  In (k, v) rs -> In k (keys (ingest_all rs acc)).
Proof.
  intros H. apply lookup_Some_keys. rewrite lookup_ingest_all.
  apply fold_merge_into_Some. right.
  apply matching_In in H. intros E. rewrite E in H. contradiction.
Qed.

Lemma keys_ingest_all_known (rs : list (string * junction))
  (acc : JunctionHash) :
  (forall kv, In kv rs -> In (fst kv) (keys acc)) ->
  keys (ingest_all rs acc) = keys acc.
Proof.
  revert acc. induction rs as [|[k v] rs IH]; simpl; intros acc H; trivial.
  assert (Hk : In k (keys acc)) by (apply (H (k, v)); auto).
  assert (E : keys (ingest k v acc) = keys acc).
  { rewrite keys_ingest. apply lookup_Some_keys in Hk as [w Hw].
    now rewrite Hw. }
  unfold ingest_all in *. simpl. rewrite IH; trivial.
  intros kv Hkv. rewrite E. apply H. now right.
Qed.

(** A key of the mapping is the key of an ingested record. *)
Lemma key_present_ingested (rs : list (string * junction)) (k : string) :
  In k (keys (ingest_all rs [])) -> exists v, In (k, v) rs.
Proof.
  intros H. apply lookup_Some_keys in H as [w Hw].
  rewrite lookup_ingest_all in Hw. simpl in Hw.
  destruct (matching k rs) as [|r l] eqn:E; [discriminate|].
  exists r. apply matching_In. rewrite E. now left.
Qed.

End Records.

(** C6.  A record whose annotated field is 1 leaves the mapping as it
    was, whether its key is new or present and whatever its coverage fields
    hold; a key that only annotated records carry is in no entry of the final
    mapping, and the written text is that of the mapping without it. *)
Theorem annotation_filter (m : Z) :
  (forall st line f0 f1 f2 f3 f4 f5 f6 f7 f8 e s,
     Py.split (Py.strip line) = [f0; f1; f2; f3; f4; f5; f6; f7; f8] ->
     Py.int f2 = Ok e -> Py.int f1 = Ok s -> Py.int f5 = Ok 1 ->
     exists st', read_line m st line = Ok st' /\
       accumulator st' = accumulator st) /\
  (forall files acc k,
     read_junctions files m = Ok acc ->
     (forall line f0 f1 f2 f3 f4 f5 f6 f7 f8,
        In line (concat files) ->
        Py.split (Py.strip line) = [f0; f1; f2; f3; f4; f5; f6; f7; f8] ->
        make_key f0 f1 f2 f3 = k -> Py.int f5 = Ok 1) ->
     lookup k acc = None /\
     (forall k' v, In (k', v) acc -> k' <> k) /\
     forall mc,
       run files m mc =
       Ok (_write_junctions
             (filter (fun kv => negb (String.eqb k (fst kv))) acc) mc)).
Proof.
  split.
  - intros st line f0 f1 f2 f3 f4 f5 f6 f7 f8 e s H He Hs Ha.
    rewrite read_line_classify.
    rewrite (classify_nine m _ _ _ _ _ _ _ _ _ _ H), He, Hs. simpl.
    destruct (e - s <? m); simpl.
    + eexists; split; reflexivity.
    + rewrite Ha. simpl. eexists; split; reflexivity.
  - intros files acc k Hrun Hann.
    destruct (read_junctions_Ok_inv m files acc Hrun) as [_ Hacc].
    assert (Hnone : lookup k acc = None).
    { subst acc. rewrite lookup_ingest_all. simpl.
      rewrite matching_nil; trivial.
      intros [k' v] Hin E. simpl in E. subst k'.
      apply accepted_records_In in Hin as [line [Hl Hacc]].
      destruct (accepted_inv m line k v Hacc)
        as [f5 [f6 [f7 [f8 [e [s [a [Hf [Hk [_ [_ [_ [Ha [Hna _]]]]]]]]]]]]]].
      specialize (Hann line _ _ _ _ _ _ _ _ _ Hl Hf (eq_sym Hk)).
      rewrite Hann in Ha. injection Ha as <-. contradiction. }
    assert (Hkeys : forall k' v, In (k', v) acc -> k' <> k).
    { intros k' v Hin ->. apply lookup_None_keys in Hnone.
      apply Hnone. unfold keys. change k with (fst (k, v)).
      now apply in_map. }
    split; [exact Hnone|]. split; [exact Hkeys|].
    intros mc. unfold run. rewrite Hrun. simpl. f_equal. f_equal.
    symmetry. apply forallb_filter_id.
    apply forallb_forall. intros [k' v] Hin. simpl.
    destruct (String.eqb_spec k k') as [E | E]; trivial.
    exfalso. now apply (Hkeys k' v Hin).
Qed.

Lemma annotation_filter_witness :
  (exists st',
     read_line 50
       (mkState [("chr1:100-200:+",
                  mkJunction "chr1" "100" "200" "+" "GT/AG" 3 1 10)] [])
       "chr1 100 200 + GT/AG 1 900 1 10" = Ok st' /\
     accumulator st' =
       [("chr1:100-200:+", mkJunction "chr1" "100" "200" "+" "GT/AG" 3 1 10)])
  /\ run [["chr1 100 200 + GT/AG 1 900 1 10"]] 50 5 = Ok "".
Proof.
  destruct (annotation_filter 50) as [A B]. split.
  - apply (A (mkState [("chr1:100-200:+",
                  mkJunction "chr1" "100" "200" "+" "GT/AG" 3 1 10)] [])
             "chr1 100 200 + GT/AG 1 900 1 10"
             "chr1" "100" "200" "+" "GT/AG" "1" "900" "1" "10" 200 100);
      reflexivity.
  - destruct (B [["chr1 100 200 + GT/AG 1 900 1 10"]] [] "chr1:100-200:+")
      as [_ [_ R]]; [reflexivity | | apply (R 5)].
    intros line f0 f1 f2 f3 f4 f5 f6 f7 f8 [<- | []] H _.
    vm_compute in H. now injection H as <- <- <- <- <- <- <- <- <-.
Defined.

(** C9.  Identical lines are not deduplicated: an accepted record that
    is ingested twice, its key being new, leaves an entry with twice its
    unique and multimap coverage and with its overhang; and a file that is
    supplied twice gives the keys of a single reading, each with doubled
    coverages and the same overhang. *)
Theorem no_deduplication (m : Z)
  (line f0 f1 f2 f3 f4 f5 f6 f7 f8 : string) (e s a c mc ao : Z) :
  Py.split (Py.strip line) = [f0; f1; f2; f3; f4; f5; f6; f7; f8] ->
  Py.int f2 = Ok e -> Py.int f1 = Ok s -> m <= e - s ->
  Py.int f5 = Ok a -> a <> 1 ->
  Py.int f6 = Ok c -> Py.int f7 = Ok mc -> Py.int f8 = Ok ao ->
  (forall st,
     lookup (make_key f0 f1 f2 f3) (accumulator st) = None ->
     exists st1 st2 v,
       read_line m st line = Ok st1 /\
       read_line m st1 line = Ok st2 /\
       lookup (make_key f0 f1 f2 f3) (accumulator st2) = Some v /\
       coverage v = 2 * c /\ multimap_coverage v = 2 * mc /\
       alignment_overhang v = ao) /\
  read_junctions [[line]; [line]] m =
    Ok [(make_key f0 f1 f2 f3,
         mkJunction f0 f1 f2 f3 f4 (2 * c) (2 * mc) ao)] /\
  (forall file acc1,
     read_junctions [file] m = Ok acc1 ->
     exists acc2,
       read_junctions [file; file] m = Ok acc2 /\
       keys acc2 = keys acc1 /\
       forall k v1, lookup k acc1 = Some v1 ->
         exists v2, lookup k acc2 = Some v2 /\
           coverage v2 = 2 * coverage v1 /\
           multimap_coverage v2 = 2 * multimap_coverage v1 /\
           alignment_overhang v2 = alignment_overhang v1).
Proof.
  intros H He Hs Hlen Ha Hna Hc Hmc Hao.
  assert (Step : forall st, read_line m st line =
     Ok (apply_verdict
           (Accept (make_key f0 f1 f2 f3)
              (mkJunction f0 f1 f2 f3 f4 c mc ao)) st)).
  { intros st. rewrite read_line_classify.
    now rewrite (accepted_nine m _ _ _ _ _ _ _ _ _ _ _ _ _ _ _ _
                   H He Hs Hlen Ha Hna Hc Hmc Hao). }
  split; [|split].
  - intros st Hnew. rewrite Step.
    eexists; eexists; eexists. split; [reflexivity|].
    rewrite Step. split; [reflexivity|].
    cbn [apply_verdict accumulator set_accumulator].
    rewrite !lookup_ingest, String.eqb_refl, Hnew.
    cbn [merge_into]. split; [reflexivity|]. unfold merge.
    cbn [coverage multimap_coverage alignment_overhang]. repeat split; lia.
  - unfold read_junctions, read_junctions_state. simpl.
    cbn [read_files read_file bind]. rewrite Step.
    cbn [bind]. rewrite Step.
    cbn [bind apply_verdict accumulator set_accumulator initial_state].
    unfold ingest at 2. cbn [lookup insert_new app].
    unfold ingest. cbn [lookup]. rewrite String.eqb_refl.
    cbn [update]. rewrite String.eqb_refl. unfold merge.
    cbn [chr start end_ strand splice_sites coverage multimap_coverage
         alignment_overhang].
    replace (c + c) with (2 * c) by lia.
    replace (mc + mc) with (2 * mc) by lia.
    replace (Z.max ao ao) with ao by lia.
    reflexivity.
  - intros file acc1 H1.
    destruct (read_junctions_Ok_inv m _ _ H1) as [Hok Hacc1].
    simpl in Hok, Hacc1. rewrite app_nil_r in Hok, Hacc1.
    set (rs := accepted_records m file) in *.
    assert (Hok2 : forallb (line_ok m) (concat [file; file]) = true).
    { simpl. rewrite app_nil_r, forallb_app, Hok. reflexivity. }
    rewrite (read_junctions_ok m _ Hok2). eexists. split; [reflexivity|].
    cbn [concat]. rewrite app_nil_r, accepted_records_app, ingest_all_app.
    fold rs. rewrite <- Hacc1. split.
    + apply keys_ingest_all_known. intros [k v] Hin. simpl.
      rewrite Hacc1. now apply ingested_key_present with (v := v).
    + intros k v1 Hv1. rewrite lookup_ingest_all, Hv1.
      destruct (merge_into_counters (matching k rs) v1)
        as [w [E [_ [C [M A]]]]].
      exists w. split; [exact E|].
      pose proof (stored_under_key k rs) as S. rewrite <- Hacc1 in S.
      destruct (matching k rs) as [|r l] eqn:Em; [congruence|].
      destruct S as [w1 [E1 [_ [C1 [M1 A1]]]]].
      rewrite Hv1 in E1. injection E1 as <-.
      rewrite <- A1 in A. repeat split; lia.
Qed.

Lemma no_deduplication_witness :
  read_junctions [[line_a]; [line_a]] 50 =
  Ok [("chr1:100-200:+", mkJunction "chr1" "100" "200" "+" "GT/AG" 6 2 10)].
Proof.
  refine (proj1 (proj2 (no_deduplication 50 line_a
              "chr1" "100" "200" "+" "GT/AG" "0" "3" "1" "10"
              200 100 0 3 1 10 _ _ _ _ _ _ _ _ _)));
    try reflexivity; lia.
Defined.

(** ** Reordering the input files *)

Section Reordering.

Variable m : Z.

Lemma Permutation_concat_files (files1 files2 : list (list string)) :
  Permutation files1 files2 -> Permutation (concat files1) (concat files2).
Proof.
  induction 1 as [|f l1 l2 _ IH|f g l|l1 l2 l3 _ IH1 _ IH2]; simpl.
  - constructor.
  - now apply Permutation_app_head.
  - apply Permutation_app_swap_app.
  - now transitivity (concat l2).
Qed.

Lemma forallb_Permutation (p : string -> bool) (l1 l2 : list string) :
  Permutation l1 l2 -> forallb p l1 = true -> forallb p l2 = true.
Proof.
  intros P H. rewrite forallb_forall in *. intros x Hx. apply H.
  apply Permutation_in with (l := l2); [now symmetry | exact Hx].
Qed.

Lemma accepted_records_Permutation (l1 l2 : list string) :
  Permutation l1 l2 ->
  Permutation (accepted_records m l1) (accepted_records m l2).
Proof.
  induction 1 as [|x l1 l2 _ IH|x y l|l1 l2 l3 _ IH1 _ IH2]; simpl.
  - constructor.
  - destruct (accepted m x); auto.
  - destruct (accepted m x), (accepted m y); auto. constructor.
  - now transitivity (accepted_records m l2).
Qed.

Lemma matching_Permutation (k : string) (r1 r2 : list (string * junction)) :
  Permutation r1 r2 -> Permutation (matching k r1) (matching k r2).
Proof.
  unfold matching.
  induction 1 as [|x l1 l2 _ IH|x y l|l1 l2 l3 _ IH1 _ IH2]; simpl.
  - constructor.
  - destruct (String.eqb k (fst x)); simpl; auto.
  - destruct (String.eqb k (fst x)), (String.eqb k (fst y)); simpl; auto.
    constructor.
  - now transitivity (map snd (filter (fun kv => String.eqb k (fst kv)) l2)).
Qed.

Lemma total_Permutation (f : junction -> Z) (l1 l2 : list junction) :
  Permutation l1 l2 -> total f l1 = total f l2.
Proof.
  unfold total.
  induction 1 as [|x l1 l2 _ IH|x y l|l1 l2 l3 _ IH1 _ IH2]; simpl; lia.
Qed.

Lemma maximum_Permutation (f : junction -> Z) (l1 l2 : list junction) :
  Permutation l1 l2 -> maximum f l1 = maximum f l2.
Proof.
  induction 1 as [|x l1 l2 _ IH|x y l|l1 l2 l3 _ IH1 _ IH2]; simpl.
  - reflexivity.
  - now rewrite IH.
  - destruct (maximum f l); f_equal; lia.
  - congruence.
Qed.

End Reordering.

(** Supplying the same files in another order changes neither whether the
    reading succeeds, nor the keys of the final mapping, nor any key's
    summed unique coverage, summed multimap coverage and largest
    overhang. *)
Lemma permuted_files_agree (m : Z) (files1 files2 : list (list string))
  (acc1 : JunctionHash) :
  Permutation files1 files2 ->
  read_junctions files1 m = Ok acc1 ->
  exists acc2,
    read_junctions files2 m = Ok acc2 /\
    Permutation (keys acc1) (keys acc2) /\
    forall k, agree_on k acc1 acc2.
Proof.
  intros P H1.
  destruct (read_junctions_Ok_inv m _ _ H1) as [Hok1 Hacc1].
  pose proof (Permutation_concat_files _ _ P) as Pl.
  pose proof (forallb_Permutation _ _ _ Pl Hok1) as Hok2.
  rewrite (read_junctions_ok m _ Hok2).
  eexists. split; [reflexivity|].
  set (rs1 := accepted_records m (concat files1)) in *.
  set (rs2 := accepted_records m (concat files2)).
  assert (Pr : Permutation rs1 rs2)
    by now apply accepted_records_Permutation.
  subst acc1.
  assert (A : forall k, agree_on k (ingest_all rs1 []) (ingest_all rs2 [])).
  { intros k. unfold agree_on.
    pose proof (matching_Permutation k _ _ Pr) as Pm.
    pose proof (stored_under_key k rs1) as S1.
    pose proof (stored_under_key k rs2) as S2.
    pose proof (total_Permutation coverage _ _ Pm) as Tc.
    pose proof (total_Permutation multimap_coverage _ _ Pm) as Tm.
    pose proof (maximum_Permutation alignment_overhang _ _ Pm) as Ta.
    assert (L : option_map counters (lookup k (ingest_all rs1 [])) =
                option_map counters (lookup k (ingest_all rs2 []))).
    { destruct (matching k rs1) as [|r1 t1];
        destruct (matching k rs2) as [|r2 t2].
      - now rewrite S1, S2.
      - apply Permutation_nil in Pm. discriminate.
      - symmetry in Pm. apply Permutation_nil in Pm. discriminate.
      - destruct S1 as [w1 [E1 [_ [C1 [M1 A1]]]]].
        destruct S2 as [w2 [E2 [_ [C2 [M2 A2]]]]].
        rewrite E1, E2. unfold counters. simpl.
        rewrite Ta, <- A2 in A1. injection A1 as A1.
        do 2 f_equal; congruence. }
    split; [|exact L].
    rewrite <- !lookup_Some_keys.
    destruct (lookup k (ingest_all rs1 [])), (lookup k (ingest_all rs2 []));
      try discriminate; split; intros [v Hv]; try discriminate; eauto. }
  split; [|exact A].
  apply NoDup_Permutation.
  - apply NoDup_keys_ingest_all. constructor.
  - apply NoDup_keys_ingest_all. constructor.
  - intros k. apply A.
Qed.

(** What does depend on the order: the splice-site code that is kept and the
    order of the entries. *)
Example order_dependence :
  read_junctions
    [["chr1 100 200 + GT/AG 0 3 1 10"; "chr2 100 200 + GT/AG 0 3 1 10"];
     ["chr2 100 200 + CT/AC 0 3 1 10"]] 50 =
  Ok [("chr1:100-200:+", mkJunction "chr1" "100" "200" "+" "GT/AG" 3 1 10);
      ("chr2:100-200:+", mkJunction "chr2" "100" "200" "+" "GT/AG" 6 2 10)] /\
  read_junctions
    [["chr2 100 200 + CT/AC 0 3 1 10"];
     ["chr1 100 200 + GT/AG 0 3 1 10"; "chr2 100 200 + GT/AG 0 3 1 10"]] 50 =
  Ok [("chr2:100-200:+", mkJunction "chr2" "100" "200" "+" "CT/AC" 6 2 10);
      ("chr1:100-200:+", mkJunction "chr1" "100" "200" "+" "GT/AG" 3 1 10)].
Proof. split; reflexivity. Qed.

(** ** Positions and first records *)

Section Positions.

Lemma index_of_present (k : string) (acc : JunctionHash) :
  In k (keys acc) -> exists i, index_of k acc = Some i.
Proof.
  induction acc as [|[a v] acc IH]; simpl; [tauto|].
  intros H. destruct (String.eqb_spec k a) as [E | E]; [eauto|].
  destruct IH as [i Hi]; [destruct H; congruence|].
  rewrite Hi. simpl. eauto.
Qed.

Lemma index_of_key (k : string) (acc : JunctionHash) (i : nat) :
  index_of k acc = Some i -> exists v, nth_error acc i = Some (k, v).
Proof.
  revert i. induction acc as [|[a v] acc IH]; simpl; intros i; [discriminate|].
  destruct (String.eqb_spec k a) as [E | E].
  - intros [= <-]. subst a. simpl. eauto.
  - destruct (index_of k acc) as [j|]; simpl; [|discriminate].
    intros [= <-]. simpl. now apply IH.
Qed.

Lemma index_of_same_entry (k1 k2 : string) (acc : JunctionHash) (i : nat) :
  index_of k1 acc = Some i -> index_of k2 acc = Some i -> k1 = k2.
Proof.
  intros H1 H2.
  apply index_of_key in H1 as [v1 E1]. apply index_of_key in H2 as [v2 E2].
  congruence.
Qed.

Variable m : Z.


End Positions.

(** C5, as the claim states it, fails: two accepted records with the
    same chrom, strand and end and with the start fields [100] and [0100]
    have one JunctionKey and occupy two entries. *)
Lemma padded_start_counterexample :
  exists k1 v1 k2 v2,
    accepted 50 line_nine = Some (k1, v1) /\
    accepted 50 line_padded = Some (k2, v2) /\
    spec_JunctionKey v1 = Some ("chr1", 100, 200, "+") /\
    spec_JunctionKey v2 = Some ("chr1", 100, 200, "+") /\
    read_junctions [[line_nine; line_padded]] 50 = Ok [(k1, v1); (k2, v2)] /\
    k1 <> k2.
Proof.
  do 4 eexists. repeat split; try reflexivity. discriminate.
Qed.

(** C5, amended.  The key of an accepted record is the text
    [chr:start-end:strand] built from its fields as they are written.  Two
    accepted records of a run are merged into one entry exactly when these
    texts are equal, and the mapping holds at most one entry per text. *)
Theorem key_identity (m : Z) (files : list (list string)) (acc : JunctionHash)
  (l1 l2 k1 k2 : string) (v1 v2 : junction) :
  read_junctions files m = Ok acc ->
  In l1 (concat files) -> In l2 (concat files) ->
  accepted m l1 = Some (k1, v1) -> accepted m l2 = Some (k2, v2) ->
  NoDup (keys acc) /\
  k1 = make_key (chr v1) (start v1) (end_ v1) (strand v1) /\
  k2 = make_key (chr v2) (start v2) (end_ v2) (strand v2) /\
  exists i1 i2,
    index_of k1 acc = Some i1 /\ index_of k2 acc = Some i2 /\
    (i1 = i2 <-> k1 = k2).
Proof.
  intros Hrun In1 In2 A1 A2.
  destruct (read_junctions_Ok_inv m _ _ Hrun) as [_ Hacc].
  split; [subst acc; apply NoDup_keys_ingest_all; constructor|].
  split; [now destruct (accepted_inv m _ _ _ A1) as (?&?&?&?&?&?&?&?&?&?)|].
  split; [now destruct (accepted_inv m _ _ _ A2) as (?&?&?&?&?&?&?&?&?&?)|].
  assert (P : forall l k v, In l (concat files) -> accepted m l = Some (k, v) ->
                exists i, index_of k acc = Some i).
  { intros l k v Hin Ha. apply index_of_present. subst acc.
    apply ingested_key_present with (v := v).
    apply accepted_records_In. eauto. }
  destruct (P _ _ _ In1 A1) as [i1 I1]. destruct (P _ _ _ In2 A2) as [i2 I2].
  exists i1, i2. repeat split; trivial.
  - intros <-. eapply index_of_same_entry; eauto.
  - intros <-. congruence.
Qed.

Lemma key_identity_witness :
  NoDup (keys [("chr1:100-200:+",
                mkJunction "chr1" "100" "200" "+" "GT/AG" 3 1 10);
               ("chr1:0100-200:+",
                mkJunction "chr1" "0100" "200" "+" "GT/AG" 4 2 12)]) /\
  exists i1 i2,
    index_of "chr1:100-200:+"
      [("chr1:100-200:+", mkJunction "chr1" "100" "200" "+" "GT/AG" 3 1 10);
       ("chr1:0100-200:+", mkJunction "chr1" "0100" "200" "+" "GT/AG" 4 2 12)]
      = Some i1 /\
    index_of "chr1:0100-200:+"
      [("chr1:100-200:+", mkJunction "chr1" "100" "200" "+" "GT/AG" 3 1 10);
       ("chr1:0100-200:+", mkJunction "chr1" "0100" "200" "+" "GT/AG" 4 2 12)]
      = Some i2 /\
    (i1 = i2 <-> "chr1:100-200:+" = "chr1:0100-200:+").
Proof.
  destruct (key_identity 50 [[line_nine; line_padded]]
              [("chr1:100-200:+",
                mkJunction "chr1" "100" "200" "+" "GT/AG" 3 1 10);
               ("chr1:0100-200:+",
                mkJunction "chr1" "0100" "200" "+" "GT/AG" 4 2 12)]
              line_nine line_padded "chr1:100-200:+" "chr1:0100-200:+"
              (mkJunction "chr1" "100" "200" "+" "GT/AG" 3 1 10)
              (mkJunction "chr1" "0100" "200" "+" "GT/AG" 4 2 12))
    as [N [_ [_ I]]]; try reflexivity.
  - simpl. left. reflexivity.
  - simpl. right. left. reflexivity.
  - split; [exact N | exact I].
Defined.



(** A start field with a leading zero is written back as it was read. *)
Example padded_start_written_back :
  run [["chr1 0100 200 + GT/AG 0 7 1 10"]] 50 5 =
  Ok ("chr1" ++ TAB ++ "0100" ++ TAB ++ "200" ++ TAB ++ "+" ++ TAB ++ "GT/AG"
      ++ TAB ++ "1" ++ TAB ++ "7" ++ TAB ++ "1" ++ TAB ++ "10" ++ NL).
Proof. reflexivity. Qed.

(** ** Further properties of the reader *)

Section Reader.

Variable m : Z.

Lemma read_file_filter_too_few (lines : list string) (st : state) :
  read_file m st (filter (fun l => negb (too_few l)) lines) =
  read_file m st lines.
Proof.
  revert st. induction lines as [|l lines IH]; simpl; intros st; trivial.
  destruct (too_few l) eqn:E; simpl.
  - unfold too_few in E. apply Nat.ltb_lt in E.
    rewrite (read_line_too_few m st l E). simpl. apply IH.
  - destruct (read_line m st l); simpl; auto.
Qed.

Lemma read_files_filter_too_few (files : list (list string)) (st : state) :
  read_files m st (map (filter (fun l => negb (too_few l))) files) =
  read_files m st files.
Proof.
  revert st. induction files as [|f files IH]; simpl; intros st; trivial.
  rewrite read_file_filter_too_few.
  destruct (read_file m st f); simpl; auto.
Qed.

(** Whether a line raises, and what, does not depend on the lines before
    it. *)
Lemma exception_any_state (line : string) (st1 st2 : state) (e : exn) :
  read_line m st1 line = Raise e -> read_line m st2 line = Raise e.
Proof.
  rewrite !read_line_classify.
  destruct (classify m line); simpl; [discriminate | trivial].
Qed.

Lemma read_file_first_raise (pre post : list string) (line : string)
  (e : exn) (st st0 : state) :
  (forall l, In l pre -> exists s s', read_line m s l = Ok s') ->
  read_line m st0 line = Raise e ->
  read_file m st (pre ++ line :: post) = Raise e.
Proof.
  revert st. induction pre as [|l pre IH]; simpl; intros st Hpre Hline.
  - now rewrite (exception_any_state _ _ st _ Hline).
  - destruct (Hpre l (or_introl eq_refl)) as [s [s' Hs]].
    destruct (read_line m st l) as [st1|e1] eqn:E; simpl.
    + apply IH; auto.
    + rewrite (exception_any_state _ _ s _ E) in Hs. discriminate.
Qed.

Lemma well_formed_line_ok (line : string) :
  well_formed m line = line_ok m line.
Proof.
  unfold well_formed, line_ok, classify, classify_fields, parses, Py.int.
  destruct (Py.split (Py.strip line))
    as [|f0 [|f1 [|f2 [|f3 [|f4 [|f5 [|f6 [|f7 [|f8 [|f9 fs]]]]]]]]]];
    try reflexivity.
  simpl.
  destruct (Py.int_opt f2) as [e|]; simpl; [|reflexivity].
  destruct (Py.int_opt f1) as [s|]; simpl; [|reflexivity].
  destruct (e - s <? m); simpl; [reflexivity|].
  destruct (Py.int_opt f5) as [a|]; simpl; [|reflexivity].
  destruct (a =? 1); simpl; [reflexivity|].
  destruct (Py.int_opt f6); simpl; [|reflexivity].
  destruct (Py.int_opt f7); simpl; [|reflexivity].
  destruct (Py.int_opt f8); reflexivity.
Qed.

End Reader.

(** X1.  Lines of fewer than eight fields, blank lines among them, take
    no part in a run: removing them from the input files changes neither
    the written text nor the exception that ends the run. *)
Theorem short_lines_ignored (m mc : Z) (files : list (list string)) :
  run (map (filter (fun l => negb (too_few l))) files) m mc = run files m mc.
Proof.
  unfold run, read_junctions, read_junctions_state.
  now rewrite read_files_filter_too_few.
Qed.

(** X2.  A run ends at the first line that raises: when the lines before
    it raise nothing, the run ends with the exception of that line, whatever
    the lines before and after it hold. *)
Theorem first_failing_line (m mc : Z) (files : list (list string))
  (pre post : list string) (line : string) (e : exn) (st0 : state) :
  concat files = (pre ++ line :: post)%list ->
  (forall l, In l pre -> exists s s', read_line m s l = Ok s') ->
  read_line m st0 line = Raise e ->
  run files m mc = Raise e.
Proof.
  intros Hc Hpre Hline.
  unfold run, read_junctions, read_junctions_state.
  rewrite read_files_concat, Hc.
  now rewrite (read_file_first_raise m pre post line e initial_state st0).
Qed.

Lemma first_failing_line_witness :
  run [[line_nine; "chr1 100 x + GT/AG 0 3 1 10"]; [line_eight]] 50 5 =
  Raise (ValueError_int "x").
Proof.
  apply (first_failing_line 50 5
           [[line_nine; "chr1 100 x + GT/AG 0 3 1 10"]; [line_eight]]
           [line_nine] [line_eight] "chr1 100 x + GT/AG 0 3 1 10"
           (ValueError_int "x") initial_state).
  - reflexivity.
  - intros l [<- | []]. exists initial_state. eexists. reflexivity.
  - reflexivity.
Defined.

(** X3.  A line that is not well formed ends the run: a run over files
    that hold such a line ends with an exception and writes nothing. *)
Theorem ill_formed_line_raises (m mc : Z) (files : list (list string))
  (line : string) :
  In line (concat files) -> well_formed m line = false ->
  exists e, run files m mc = Raise e.
Proof.
  intros Hin Hw. unfold run.
  destruct (read_junctions files m) as [acc|e] eqn:E; [|now exists e].
  apply read_junctions_Ok_inv in E as [Hok _].
  rewrite forallb_forall in Hok. specialize (Hok line Hin).
  rewrite <- well_formed_line_ok in Hok. congruence.
Qed.

Lemma ill_formed_line_raises_witness :
  exists e, run [[line_nine]; ["chr1 100 200 + GT/AG no 3 1 10"]] 50 5
            = Raise e.
Proof.
  apply (ill_formed_line_raises 50 5
           [[line_nine]; ["chr1 100 200 + GT/AG no 3 1 10"]]
           "chr1 100 200 + GT/AG no 3 1 10").
  - simpl. right. left. reflexivity.
  - reflexivity.
Defined.

(** ** What reading more lines does to the mapping *)

Section Growth.

Variable m : Z.

Lemma keys_ingest_all_extends (rs : list (string * junction))
  (acc : JunctionHash) :
  exists new, keys (ingest_all rs acc) = (keys acc ++ new)%list.
Proof.
  revert acc. induction rs as [|[k v] rs IH]; intros acc.
  - exists []. simpl. now rewrite app_nil_r.
  - unfold ingest_all in *. simpl.
    destruct (IH (ingest k v acc)) as [new E]. rewrite E, keys_ingest.
    destruct (lookup k acc).
    + now exists new.
    + exists (k :: new). now rewrite <- app_assoc.
Qed.

Lemma total_nonneg (f : junction -> Z) (l : list junction) :
  (forall r, In r l -> 0 <= f r) -> 0 <= total f l.
Proof.
  unfold total. induction l as [|r l IH]; simpl; intros H; [lia|].
  assert (0 <= f r) by auto. assert (0 <= fold_right (fun r s => f r + s) 0 l)
    by auto. lia.
Qed.

Lemma read_files_accumulator (files : list (list string)) (st st' : state) :
  read_files m st files = Ok st' ->
  accumulator st' =
  ingest_all (accepted_records m (concat files)) (accumulator st).
Proof.
  rewrite read_files_concat. intros H.
  pose proof (read_file_Ok_inv m _ _ _ H) as Hok.
  destruct (read_file_ok m _ st Hok) as [st1 [E A]]. congruence.
Qed.

Lemma stdout_apply_verdict (v : verdict) (st : state) :
  exists msgs, stdout (apply_verdict v st) = (stdout st ++ msgs)%list.
Proof.
  destruct v; simpl.
  - exists []. now rewrite app_nil_r.
  - now exists [msg].
  - exists []. now rewrite app_nil_r.
  - exists []. now rewrite app_nil_r.
Qed.

Lemma read_file_stdout (lines : list string) (st st' : state) :
  read_file m st lines = Ok st' ->
  exists msgs, stdout st' = (stdout st ++ msgs)%list.
Proof.
  revert st. induction lines as [|l lines IH]; simpl; intros st H.
  - injection H as <-. exists []. now rewrite app_nil_r.
  - rewrite read_line_classify in H.
    destruct (classify m l) as [v|e]; [|discriminate]. simpl in H.
    destruct (IH _ H) as [msgs E].
    destruct (stdout_apply_verdict v st) as [msgs0 E0].
    exists (msgs0 ++ msgs)%list. now rewrite E, E0, app_assoc.
Qed.

End Growth.

(** X4.  Reading further files never removes or reorders an entry and
    never takes back a message: the keys and the standard output reached so
    far stay as a prefix, every entry keeps its five text columns, and no
    entry's overhang decreases. *)
Theorem reading_extends (m : Z) (files : list (list string)) (st st' : state) :
  read_files m st files = Ok st' ->
  (exists new, keys (accumulator st') = (keys (accumulator st) ++ new)%list) /\
  (exists msgs, stdout st' = (stdout st ++ msgs)%list) /\
  forall k v, lookup k (accumulator st) = Some v ->
    exists v', lookup k (accumulator st') = Some v' /\
      text_columns v' = text_columns v /\
      alignment_overhang v <= alignment_overhang v'.
Proof.
  intros H. pose proof (read_files_accumulator m _ _ _ H) as A.
  split; [rewrite A; apply keys_ingest_all_extends|].
  split; [rewrite read_files_concat in H; eapply read_file_stdout; eauto|].
  intros k v Hk. rewrite A, lookup_ingest_all, Hk.
  destruct (merge_into_counters
              (matching k (accepted_records m (concat files))) v)
    as [w [E [T [_ [_ O]]]]].
  exists w. repeat split; trivial. rewrite O.
  destruct (maximum alignment_overhang _); lia.
Qed.

Lemma reading_extends_witness :
  exists v',
    lookup "chr1:100-200:+"
      [("chr1:100-200:+", mkJunction "chr1" "100" "200" "+" "GT/AG" 7 3 12)]
      = Some v' /\
    text_columns v' = ["chr1"; "100"; "200"; "+"; "GT/AG"] /\
    10 <= alignment_overhang v'.
Proof.
  apply (proj2 (proj2 (reading_extends 50 [[line_b]]
           (mkState [("chr1:100-200:+",
              mkJunction "chr1" "100" "200" "+" "GT/AG" 3 1 10)] [])
           (mkState [("chr1:100-200:+",
              mkJunction "chr1" "100" "200" "+" "GT/AG" 7 3 12)] [])
           eq_refl)) "chr1:100-200:+"
           (mkJunction "chr1" "100" "200" "+" "GT/AG" 3 1 10)).
  reflexivity.
Defined.

(** X5.  When the coverage fields of the lines read are not negative, no
    entry's unique or multimap coverage decreases.  (The reader takes
    negative numbers as they come, so the condition is needed.) *)
Theorem coverage_grows (m : Z) (files : list (list string)) (st st' : state) :
  read_files m st files = Ok st' ->
  (forall line f0 f1 f2 f3 f4 f5 f6 f7 f8 c mc,
     In line (concat files) ->
     Py.split (Py.strip line) = [f0; f1; f2; f3; f4; f5; f6; f7; f8] ->
     Py.int f6 = Ok c -> Py.int f7 = Ok mc -> 0 <= c /\ 0 <= mc) ->
  forall k v, lookup k (accumulator st) = Some v ->
    exists v', lookup k (accumulator st') = Some v' /\
      coverage v <= coverage v' /\
      multimap_coverage v <= multimap_coverage v'.
Proof.
  intros H Hpos k v Hk.
  rewrite (read_files_accumulator m _ _ _ H), lookup_ingest_all, Hk.
  set (l := matching k (accepted_records m (concat files))).
  destruct (merge_into_counters l v) as [w [E [_ [C [M _]]]]].
  exists w. split; [exact E|].
  assert (P : forall r, In r l -> 0 <= coverage r /\ 0 <= multimap_coverage r).
  { intros r Hr. apply matching_In in Hr.
    apply accepted_records_In in Hr as [line [Hl Ha]].
    destruct (accepted_inv m _ _ _ Ha)
      as (f5 & f6 & f7 & f8 & e & s & a & Hf & _ & _ & _ & _ & _ & _ & Hc
          & Hm & _).
    eapply Hpos; eauto. }
  pose proof (total_nonneg coverage l (fun r Hr => proj1 (P r Hr))).
  pose proof (total_nonneg multimap_coverage l (fun r Hr => proj2 (P r Hr))).
  lia.
Qed.

Lemma coverage_grows_witness :
  exists v',
    lookup "chr1:100-200:+"
      [("chr1:100-200:+", mkJunction "chr1" "100" "200" "+" "GT/AG" 7 3 12)]
      = Some v' /\
    3 <= coverage v' /\ 1 <= multimap_coverage v'.
Proof.
  refine (coverage_grows 50 [[line_b]]
           (mkState [("chr1:100-200:+",
              mkJunction "chr1" "100" "200" "+" "GT/AG" 3 1 10)] [])
           (mkState [("chr1:100-200:+",
              mkJunction "chr1" "100" "200" "+" "GT/AG" 7 3 12)] [])
           eq_refl _ "chr1:100-200:+"
           (mkJunction "chr1" "100" "200" "+" "GT/AG" 3 1 10) _).
  - intros line f0 f1 f2 f3 f4 f5 f6 f7 f8 c mc [<- | []] Hf Hc Hm.
    vm_compute in Hf. injection Hf as <- <- <- <- <- <- <- <- <-.
    vm_compute in Hc, Hm. injection Hc as <-. injection Hm as <-. lia.
  - reflexivity.
Defined.

(** A negative coverage field is taken as it comes and lowers the pooled
    coverage. *)
Example negative_coverage_accepted :
  read_junctions [[line_a]; ["chr1 100 200 + GT/AG 0 -2 0 1"]] 50 =
  Ok [("chr1:100-200:+", mkJunction "chr1" "100" "200" "+" "GT/AG" 1 1 10)].
Proof. reflexivity. Qed.

(** ** The order of the entries *)






(** ** Strings: reversal, stripping and splitting *)

Section Strings.

Lemma string_app_nil_r (s : string) : s ++ "" = s.
Proof. induction s; simpl; congruence. Qed.

Lemma string_rev_app_spec (s acc : string) :
  Py.string_rev_app s acc = Py.string_rev s ++ acc.
Proof.
  unfold Py.string_rev. revert acc.
  induction s as [|c s IH]; simpl; intros acc; trivial.
  rewrite (IH (String c acc)), (IH (String c "")), string_app_assoc.
  reflexivity.
Qed.

Lemma string_rev_cons (c : ascii) (s : string) :
  Py.string_rev (String c s) = Py.string_rev s ++ String c "".
Proof. unfold Py.string_rev at 1. simpl. apply string_rev_app_spec. Qed.

Lemma string_rev_app_distr (a b : string) :
  Py.string_rev (a ++ b) = Py.string_rev b ++ Py.string_rev a.
Proof.
  induction a as [|c a IH]; simpl.
  - now rewrite string_app_nil_r.
  - now rewrite !string_rev_cons, IH, string_app_assoc.
Qed.

Lemma string_rev_involutive (s : string) :
  Py.string_rev (Py.string_rev s) = s.
Proof.
  induction s as [|c s IH]; trivial.
  now rewrite string_rev_cons, string_rev_app_distr, IH.
Qed.

Lemma all_space_app (a b : string) :
  all_space (a ++ b) = all_space a && all_space b.
Proof.
  induction a as [|c a IH]; simpl; trivial.
  now rewrite IH, andb_assoc.
Qed.

Lemma all_space_rev (s : string) : all_space (Py.string_rev s) = all_space s.
Proof.
  induction s as [|c s IH]; trivial.
  rewrite string_rev_cons, all_space_app, IH. simpl.
  rewrite andb_true_r. apply andb_comm.
Qed.

Lemma no_space_app (a b : string) :
  no_space (a ++ b) = no_space a && no_space b.
Proof.
  induction a as [|c a IH]; simpl; trivial.
  now rewrite IH, andb_assoc.
Qed.

Lemma no_space_rev (s : string) : no_space (Py.string_rev s) = no_space s.
Proof.
  induction s as [|c s IH]; trivial.
  rewrite string_rev_cons, no_space_app, IH. simpl.
  rewrite andb_true_r. apply andb_comm.
Qed.

Lemma string_rev_nonempty (s : string) : s <> "" -> Py.string_rev s <> "".
Proof.
  destruct s as [|c s]; [congruence|]. intros _.
  rewrite string_rev_cons. now destruct (Py.string_rev s).
Qed.

Lemma lstrip_all_space (t u : string) :
  all_space t = true -> Py.lstrip (t ++ u) = Py.lstrip u.
Proof.
  induction t as [|c t IH]; simpl; trivial.
  intros H. apply andb_prop in H as [Hc Ht]. rewrite Hc. auto.
Qed.

Lemma lstrip_not_all_space (t u : string) :
  all_space t = false -> Py.lstrip (t ++ u) = Py.lstrip t ++ u.
Proof.
  induction t as [|c t IH]; simpl; [discriminate|].
  destruct (Py.is_space c); simpl; auto.
Qed.

Lemma rstrip_cons (c : ascii) (s : string) :
  Py.rstrip (String c s) =
  if Py.is_space c && all_space s then "" else String c (Py.rstrip s).
Proof.
  unfold Py.rstrip. rewrite string_rev_cons.
  destruct (all_space s) eqn:A.
  - rewrite lstrip_all_space by now rewrite all_space_rev.
    assert (E : Py.lstrip (Py.string_rev s) = "").
    { rewrite <- (string_app_nil_r (Py.string_rev s)).
      rewrite lstrip_all_space by now rewrite all_space_rev. reflexivity. }
    rewrite E. simpl. destruct (Py.is_space c); reflexivity.
  - rewrite lstrip_not_all_space by now rewrite all_space_rev.
    rewrite string_rev_app_distr, andb_false_r. reflexivity.
Qed.

Lemma split_from_all_space (tok s : string) :
  all_space s = true ->
  Py.split_from tok s =
  match tok with EmptyString => [] | _ => [Py.string_rev tok] end.
Proof.
  revert tok. induction s as [|c s IH]; simpl; intros tok H; trivial.
  apply andb_prop in H as [Hc Hs]. rewrite Hc.
  destruct tok; rewrite (IH "" Hs); reflexivity.
Qed.

Lemma split_from_rstrip (tok s : string) :
  Py.split_from tok (Py.rstrip s) = Py.split_from tok s.
Proof.
  revert tok. induction s as [|c s IH]; intros tok; trivial.
  rewrite rstrip_cons.
  destruct (Py.is_space c) eqn:Hc; simpl; rewrite ?Hc.
  - destruct (all_space s) eqn:A.
    + rewrite (split_from_all_space "" s A). now destruct tok.
    + simpl. rewrite Hc. destruct tok; now rewrite IH.
  - apply IH.
Qed.

Lemma split_from_lstrip (s : string) :
  Py.split_from "" (Py.lstrip s) = Py.split_from "" s.
Proof.
  induction s as [|c s IH]; trivial. simpl.
  destruct (Py.is_space c) eqn:Hc; trivial. simpl. now rewrite Hc.
Qed.

(** [strip] before [split] changes nothing. *)
Lemma split_strip (s : string) : Py.split (Py.strip s) = Py.split s.
Proof.
  unfold Py.split, Py.strip. now rewrite split_from_rstrip, split_from_lstrip.
Qed.

Lemma split_from_tokens (tok s : string) :
  no_space tok = true ->
  Forall (fun t => is_token t = true) (Py.split_from tok s).
Proof.
  assert (T : forall tok, tok <> "" -> no_space tok = true ->
                is_token (Py.string_rev tok) = true).
  { intros t Hne Hns. unfold is_token.
    pose proof (string_rev_nonempty t Hne).
    destruct (Py.string_rev t) eqn:E; [congruence|].
    rewrite <- E, no_space_rev. exact Hns. }
  revert tok. induction s as [|c s IH]; simpl; intros tok H.
  - destruct tok; [constructor|].
    constructor; [apply T; [discriminate | exact H] | constructor].
  - destruct (Py.is_space c) eqn:Hc.
    + destruct tok; [now apply IH|].
      constructor; [apply T; [discriminate | exact H] | now apply IH].
    + apply IH. simpl. now rewrite Hc, H.
Qed.

(** Every field of a line is a token. *)
Lemma fields_are_tokens (line : string) :
  Forall (fun t => is_token t = true) (Py.split (Py.strip line)).
Proof. unfold Py.split. now apply split_from_tokens. Qed.

Lemma split_from_no_space (t tok s : string) :
  no_space t = true ->
  Py.split_from tok (t ++ s) = Py.split_from (Py.string_rev_app t tok) s.
Proof.
  revert tok. induction t as [|c t IH]; simpl; intros tok H; trivial.
  apply andb_prop in H as [Hc Ht].
  destruct (Py.is_space c); [discriminate|]. now apply IH.
Qed.

Lemma is_token_no_space (t : string) : is_token t = true -> no_space t = true.
Proof. now destruct t. Qed.

(** A token followed by a whitespace character is the first field. *)
Lemma split_token_space (t : string) (c : ascii) (s : string) :
  is_token t = true -> Py.is_space c = true ->
  Py.split (t ++ String c s) = t :: Py.split s.
Proof.
  intros Ht Hc. unfold Py.split.
  rewrite split_from_no_space by now apply is_token_no_space.
  rewrite string_rev_app_spec, string_app_nil_r. simpl. rewrite Hc.
  assert (Hne : Py.string_rev t <> "")
    by (apply string_rev_nonempty; now destruct t).
  destruct (Py.string_rev t) eqn:E; [congruence|].
  now rewrite <- E, string_rev_involutive.
Qed.

End Strings.

(** ** Numbers: rendering and parsing *)

Section Decimal.

Lemma digit_not_space (c : ascii) :
  Py.is_digit c = true -> Py.is_space c = false.
Proof.
  unfold Py.is_digit, Py.is_space. intros H.
  apply andb_prop in H as [H1 H2].
  apply Nat.leb_le in H1. apply Nat.leb_le in H2.
  repeat match goal with
         | |- context [(?a <=? ?b)%nat] => destruct (Nat.leb_spec a b)
         | |- context [(?a =? ?b)%nat] => destruct (Nat.eqb_spec a b)
         end; simpl; trivial; lia.
Qed.


Lemma all_digits_no_space (s : string) :
  all_digits s = true -> no_space s = true.
Proof.
  induction s as [|c s IH]; simpl; trivial. intros H.
  apply andb_prop in H as [Hc Hs].
  now rewrite (digit_not_space c Hc), IH.
Qed.

Lemma string_of_uint_digits (d : Decimal.uint) :
  all_digits (NilEmpty.string_of_uint d) = true.
Proof. induction d; simpl; trivial. Qed.




Lemma rstrip_no_space (s : string) : no_space s = true -> Py.rstrip s = s.
Proof.
  induction s as [|c s IH]; trivial. simpl. intros H.
  apply andb_prop in H as [Hc Hs]. rewrite rstrip_cons.
  destruct (Py.is_space c); [discriminate|]. simpl. now rewrite IH.
Qed.

Lemma strip_no_space (s : string) : no_space s = true -> Py.strip s = s.
Proof.
  intros H. unfold Py.strip.
  assert (E : Py.lstrip s = s).
  { destruct s as [|c s]; trivial. simpl in *.
    now destruct (Py.is_space c). }
  rewrite E. now apply rstrip_no_space.
Qed.

Lemma int_space_is_space (c : ascii) :
  Py.is_int_space c = true -> Py.is_space c = true.
Proof.
  unfold Py.is_int_space, Py.is_space.
  repeat match goal with
         | |- context [(?a <=? ?b)%nat] => destruct (Nat.leb_spec a b)
         | |- context [(?a =? ?b)%nat] => destruct (Nat.eqb_spec a b)
         end; simpl; trivial; try discriminate; lia.
Qed.

Lemma int_lstrip_no_space (s : string) :
  no_space s = true -> Py.int_lstrip s = s.
Proof.
  destruct s as [|c s]; trivial. simpl. intros H.
  apply andb_prop in H as [Hc _].
  destruct (Py.is_int_space c) eqn:E; trivial.
  rewrite (int_space_is_space c E) in Hc. discriminate.
Qed.

Lemma int_strip_no_space (s : string) :
  no_space s = true -> Py.int_strip s = s.
Proof.
  intros H. unfold Py.int_strip.
  rewrite (int_lstrip_no_space s H).
  rewrite int_lstrip_no_space by now rewrite no_space_rev.
  apply string_rev_involutive.
Qed.

Lemma int_opt_unfold (s : string) :
  Py.int_opt s =
  match Py.int_strip s with
  | EmptyString => None
  | String c s' =>
      if Ascii.eqb c "-" then option_map Z.opp (Py.int_unsigned s')
      else if Ascii.eqb c "+" then Py.int_unsigned s'
      else Py.int_unsigned (String c s')
  end.
Proof.
  unfold Py.int_opt. destruct (Py.int_strip s) as [|c s']; [reflexivity|].
  destruct c as [[] [] [] [] [] [] [] []]; reflexivity.
Qed.



Lemma str_is_token (z : Z) : is_token (Py.str z) = true.
Proof.
  assert (T : forall d, is_token (NilZero.string_of_uint d) = true).
  { intros d. unfold NilZero.string_of_uint.
    pose proof (string_of_uint_digits d) as H.
    destruct d; try reflexivity; unfold is_token;
      (destruct (NilEmpty.string_of_uint _) eqn:E;
       [discriminate E | rewrite <- E; apply all_digits_no_space;
                         rewrite E; exact H]). }
  unfold Py.str, Z.to_int. destruct z as [|p|p]; [reflexivity | apply T |].
  cbn [NilZero.string_of_int]. specialize (T (Pos.to_uint p)).
  unfold is_token in *. simpl.
  destruct (NilZero.string_of_uint (Pos.to_uint p)); [discriminate | exact T].
Qed.

End Decimal.

(** ** The lines that are written *)

Section Written.

Variable m : Z.

(** Where an entry of the final mapping comes from. *)
Lemma entry_origin (files : list (list string)) (acc : JunctionHash)
  (k : string) (v : junction) :
  read_junctions files m = Ok acc -> In (k, v) acc ->
  exists line r,
    In line (concat files) /\ accepted m line = Some (k, r) /\
    text_columns v = text_columns r.
Proof.
  intros Hrun Hin.
  destruct (read_junctions_Ok_inv m _ _ Hrun) as [_ Hacc].
  assert (Hnd : NoDup (keys acc))
    by (subst acc; apply NoDup_keys_ingest_all; constructor).
  pose proof (In_lookup _ _ _ Hnd Hin) as Hl.
  pose proof (stored_under_key k (accepted_records m (concat files))) as S.
  rewrite <- Hacc in S.
  destruct (matching k (accepted_records m (concat files))) as [|r l] eqn:Em;
    [congruence|].
  destruct S as [w [Ew [T _]]]. rewrite Hl in Ew. injection Ew as <-.
  assert (Hr : In (k, r) (accepted_records m (concat files))).
  { apply matching_In. rewrite Em. now left. }
  apply accepted_records_In in Hr as [line [H1 H2]].
  now exists line, r.
Qed.

(** The text columns of an entry are fields of a line, and its coordinates
    are integers. *)
Lemma entry_columns (files : list (list string)) (acc : JunctionHash)
  (k : string) (v : junction) :
  read_junctions files m = Ok acc -> In (k, v) acc ->
  Forall (fun t => is_token t = true) (text_columns v) /\
  (exists e s, Py.int (end_ v) = Ok e /\ Py.int (start v) = Ok s /\
               m <= e - s) /\
  k = make_key (chr v) (start v) (end_ v) (strand v).
Proof.
  intros Hrun Hin.
  destruct (entry_origin _ _ _ _ Hrun Hin) as [line [r [_ [Ha T]]]].
  destruct (accepted_inv m _ _ _ Ha)
    as (f5 & f6 & f7 & f8 & e & s & a & Hf & Hk & He & Hs & Hlen & _).
  pose proof (fields_are_tokens line) as Ft. rewrite Hf in Ft.
  unfold text_columns in T. injection T as T1 T2 T3 T4 T5.
  rewrite T1, T2, T3, T4. split; [|split; [now exists e, s | exact Hk]].
  unfold text_columns. rewrite T1, T2, T3, T4, T5.
  inversion Ft as [|? ? P0 Ft0]; subst.
  inversion Ft0 as [|? ? P1 Ft1]; subst.
  inversion Ft1 as [|? ? P2 Ft2]; subst.
  inversion Ft2 as [|? ? P3 Ft3]; subst.
  inversion Ft3 as [|? ? P4 Ft4]; subst.
  repeat constructor; assumption.
Qed.

Lemma tab_app (s : string) : TAB ++ s = String (ascii_of_nat 9) s.
Proof. reflexivity. Qed.

Lemma output_line_fields (v : junction) :
  Forall (fun t => is_token t = true) (text_columns v) ->
  Py.split (Py.strip (output_line v ++ NL)) =
  [chr v; start v; end_ v; strand v; splice_sites v; "1";
   Py.str (coverage v); Py.str (multimap_coverage v);
   Py.str (alignment_overhang v)].
Proof.
  unfold text_columns. intros F.
  inversion F as [|? ? P0 F0]; subst.
  inversion F0 as [|? ? P1 F1]; subst.
  inversion F1 as [|? ? P2 F2]; subst.
  inversion F2 as [|? ? P3 F3]; subst.
  inversion F3 as [|? ? P4 F4]; subst.
  rewrite split_strip. unfold output_line, NL.
  rewrite !string_app_assoc, !tab_app.
  repeat (rewrite split_token_space;
          [f_equal | assumption || reflexivity || apply str_is_token
                   | reflexivity]).
Qed.

Lemma read_file_unchanged (m' : Z) (lines : list string) :
  (forall l, In l lines -> forall st,
     exists st', read_line m' st l = Ok st' /\
       accumulator st' = accumulator st) ->
  forall st, exists st', read_file m' st lines = Ok st' /\
    accumulator st' = accumulator st.
Proof.
  induction lines as [|l lines IH]; simpl; intros H st.
  - now exists st.
  - destruct (H l (or_introl eq_refl) st) as [st1 [E1 A1]].
    rewrite E1. simpl.
    destruct (IH (fun l' Hl' => H l' (or_intror Hl')) st1) as [st2 [E2 A2]].
    exists st2. split; [exact E2 | congruence].
Qed.

End Written.



(** X8.  The written file is no input for a further pooling: read as an
    input line with any length threshold, a written line raises nothing and
    leaves the mapping as it was, since its flag is [1]; a file of written
    lines gives the empty mapping. *)
Theorem written_lines_not_pooled (m mc m' : Z) (files : list (list string))
  (acc : JunctionHash) :
  read_junctions files m = Ok acc ->
  _write_junctions acc mc = String.concat "" (written_lines acc mc) /\
  (forall line st, In line (written_lines acc mc) ->
     exists st', read_line m' st line = Ok st' /\
       accumulator st' = accumulator st) /\
  read_junctions [written_lines acc mc] m' = Ok [].
Proof.
  intros Hrun.
  assert (L : forall line, In line (written_lines acc mc) -> forall st,
     exists st', read_line m' st line = Ok st' /\
       accumulator st' = accumulator st).
  { intros line Hl st. unfold written_lines in Hl.
    apply in_map_iff in Hl as [[k v] [<- Hf]]. simpl.
    apply filter_In in Hf as [Hin _].
    destruct (entry_columns m _ _ _ _ Hrun Hin) as [F [[e [s [He [Hs _]]]] _]].
    rewrite read_line_classify.
    rewrite (classify_nine m' _ _ _ _ _ _ _ _ _ _ (output_line_fields v F)).
    rewrite He, Hs. simpl.
    destruct (e - s <? m'); simpl; eexists; split; reflexivity. }
  split; [|split].
  - unfold _write_junctions. rewrite write_items_spec. reflexivity.
  - intros line st Hl. now apply L.
  - unfold read_junctions, read_junctions_state. simpl.
    destruct (read_file_unchanged m' _ L initial_state) as [st' [E A]].
    rewrite E. simpl. now rewrite A.
Qed.

Lemma written_lines_not_pooled_witness :
  read_junctions
    [written_lines
       [("chr1:100-200:+", mkJunction "chr1" "100" "200" "+" "GT/AG" 7 3 12)]
       5] 10 = Ok [].
Proof.
  exact (proj2 (proj2 (written_lines_not_pooled 50 5 10 [[line_a]; [line_b]]
    [("chr1:100-200:+", mkJunction "chr1" "100" "200" "+" "GT/AG" 7 3 12)]
    eq_refl))).
Defined.

(** ** Thresholds *)

Section Thresholds.

Lemma well_formed_threshold (m1 m2 : Z) (line : string) :
  m1 <= m2 -> well_formed m1 line = true -> well_formed m2 line = true.
Proof.
  intros Hm. unfold well_formed.
  destruct (Py.split (Py.strip line))
    as [|f0 [|f1 [|f2 [|f3 [|f4 [|f5 [|f6 [|f7 [|f8 [|f9 fs]]]]]]]]]];
    trivial.
  destruct (Py.int_opt f2) as [e|]; trivial.
  destruct (Py.int_opt f1) as [s|]; trivial.
  destruct (Z.ltb_spec (e - s) m1), (Z.ltb_spec (e - s) m2);
    simpl; trivial; lia.
Qed.

Lemma accepted_threshold (m1 m2 : Z) (line : string)
  (kv : string * junction) :
  m1 <= m2 -> accepted m2 line = Some kv -> accepted m1 line = Some kv.
Proof.
  intros Hm H. destruct kv as [k v].
  destruct (accepted_inv m2 _ _ _ H)
    as (f5 & f6 & f7 & f8 & e & s & a & Hf & Hk & He & Hs & Hlen & Ha & Hna
        & Hc & Hmc & Hao).
  unfold accepted.
  rewrite (accepted_nine m1 _ _ _ _ _ _ _ _ _ _ _ _ _ _ _ _
             Hf He Hs (Z.le_trans _ _ _ Hm Hlen) Ha Hna Hc Hmc Hao).
  rewrite Hk. now destruct v.
Qed.

End Thresholds.

(** X9.  A larger coverage threshold only removes lines: what is written
    at the larger threshold is what the larger threshold leaves of the
    entries written at the smaller one, so every line written at the larger
    threshold is written at the smaller one. *)
Theorem coverage_threshold_monotone (junctions : JunctionHash) (mc1 mc2 : Z) :
  mc1 <= mc2 ->
  _write_junctions junctions mc2 =
    _write_junctions
      (filter (fun kv => mc1 <=? coverage (snd kv)) junctions) mc2 /\
  (forall line, In line (written_lines junctions mc2) ->
                In line (written_lines junctions mc1)) /\
  (List.length (written_lines junctions mc2)
   <= List.length (written_lines junctions mc1))%nat.
Proof.
  intros Hm.
  assert (F : filter (fun kv : string * junction => mc2 <=? coverage (snd kv))
                (filter (fun kv => mc1 <=? coverage (snd kv)) junctions) =
              filter (fun kv => mc2 <=? coverage (snd kv)) junctions).
  { induction junctions as [|[k v] l IH]; simpl; trivial.
    destruct (Z.leb_spec mc1 (coverage v)); simpl;
      destruct (Z.leb_spec mc2 (coverage v)); simpl;
      try rewrite IH; trivial; lia. }
  split; [|split].
  - unfold _write_junctions. rewrite !write_items_spec.
    unfold emitted_text. now rewrite F.
  - intros line. unfold written_lines. rewrite !in_map_iff.
    intros [kv [E H]]. exists kv. split; trivial.
    apply filter_In in H as [H1 H2]. apply filter_In. split; trivial.
    apply Z.leb_le in H2. apply Z.leb_le. lia.
  - unfold written_lines. rewrite !length_map, <- F.
    apply filter_length_le.
Qed.

Lemma coverage_threshold_monotone_witness :
  _write_junctions
    [("a", mkJunction "chr1" "100" "200" "+" "GT/AG" 7 3 12);
     ("b", mkJunction "chr2" "100" "200" "+" "GT/AG" 3 3 12)] 6 =
  _write_junctions
    [("a", mkJunction "chr1" "100" "200" "+" "GT/AG" 7 3 12)] 6.
Proof.
  refine (proj1 (coverage_threshold_monotone
    [("a", mkJunction "chr1" "100" "200" "+" "GT/AG" 7 3 12);
     ("b", mkJunction "chr2" "100" "200" "+" "GT/AG" 3 3 12)] 5 6 _)).
  lia.
Defined.

(** X10.  A larger length threshold brings no new exception and no new
    key: a run that succeeds at the smaller threshold succeeds at the larger
    one, with a mapping whose keys are among those of the smaller one. *)
Theorem length_threshold_monotone (m1 m2 : Z) (files : list (list string))
  (acc1 : JunctionHash) :
  m1 <= m2 ->
  read_junctions files m1 = Ok acc1 ->
  exists acc2,
    read_junctions files m2 = Ok acc2 /\
    incl (keys acc2) (keys acc1) /\
    (List.length acc2 <= List.length acc1)%nat.
Proof.
  intros Hm H1.
  destruct (read_junctions_Ok_inv m1 _ _ H1) as [Hok1 Hacc1].
  assert (Hok2 : forallb (line_ok m2) (concat files) = true).
  { rewrite forallb_forall in *. intros l Hl.
    rewrite <- well_formed_line_ok.
    apply (well_formed_threshold m1 m2 l Hm).
    rewrite well_formed_line_ok. auto. }
  rewrite (read_junctions_ok m2 _ Hok2). eexists. split; [reflexivity|].
  assert (I : incl (keys (ingest_all (accepted_records m2 (concat files)) []))
                (keys acc1)).
  { intros k Hk. apply key_present_ingested in Hk as [v Hv].
    apply accepted_records_In in Hv as [line [Hl Ha]].
    subst acc1. apply ingested_key_present with (v := v).
    apply accepted_records_In. exists line. split; trivial.
    now apply (accepted_threshold m1 m2). }
  split; [exact I|].
  rewrite <- (length_map fst acc1), <- (length_map fst (ingest_all _ _)).
  apply NoDup_incl_length; [|exact I].
  apply NoDup_keys_ingest_all. constructor.
Qed.

Lemma length_threshold_monotone_witness :
  exists acc2,
    read_junctions [[line_a; "chr2 100 160 + GT/AG 0 3 1 10"]] 100 = Ok acc2 /\
    incl (keys acc2) ["chr1:100-200:+"; "chr2:100-160:+"] /\
    (List.length acc2 <= 2)%nat.
Proof.
  refine (length_threshold_monotone 50 100
            [[line_a; "chr2 100 160 + GT/AG 0 3 1 10"]]
            [("chr1:100-200:+",
              mkJunction "chr1" "100" "200" "+" "GT/AG" 3 1 10);
             ("chr2:100-160:+",
              mkJunction "chr2" "100" "160" "+" "GT/AG" 3 1 10)] _ eq_refl).
  lia.
Defined.

(** A smaller length threshold can bring an exception: the counters of a
    line are looked at only when the line passes the length gate. *)
Example smaller_length_threshold_raises :
  read_junctions [["chr1 100 140 + GT/AG 0 x 1 10"]] 50 = Ok [] /\
  read_junctions [["chr1 100 140 + GT/AG 0 x 1 10"]] 10 =
  Raise (ValueError_int "x").
Proof. split; reflexivity. Qed.

(** ** Keys and the fields they are built from *)

Section Keys.

Lemma chars_app (a b : string) :
  list_ascii_of_string (a ++ b) =
  (list_ascii_of_string a ++ list_ascii_of_string b)%list.
Proof. induction a as [|c a IH]; simpl; congruence. Qed.

Lemma chars_inj (a b : string) :
  list_ascii_of_string a = list_ascii_of_string b -> a = b.
Proof.
  intros H. rewrite <- (string_of_list_ascii_of_string a),
    <- (string_of_list_ascii_of_string b). now rewrite H.
Qed.

Lemma has_char_In (c : ascii) (s : string) :
  has_char c s = false <-> ~ In c (list_ascii_of_string s).
Proof.
  induction s as [|d s IH]; simpl; [tauto|].
  destruct (Ascii.eqb_spec c d) as [E | E]; simpl.
  - split; [discriminate | intros H; exfalso; auto].
  - rewrite IH. split; [intros H [H1 | H1]; congruence || auto | tauto].
Qed.

(** A list is cut in one way only at the last occurrence of a character. *)
Lemma cut_at_last (c : ascii) (x1 d1 x2 d2 : list ascii) :
  ~ In c d1 -> ~ In c d2 ->
  (x1 ++ c :: d1 = x2 ++ c :: d2)%list -> x1 = x2 /\ d1 = d2.
Proof.
  intros H1 H2 E. apply app_eq_app in E as [l [[Ex Ed] | [Ex Ed]]].
  - destruct l as [|a l]; simpl in Ed.
    + injection Ed as <-. now rewrite app_nil_r in Ex.
    + injection Ed as <- Ed. exfalso. apply H2. rewrite Ed.
      apply in_or_app. right. now left.
  - destruct l as [|a l]; simpl in Ed.
    + injection Ed as <-. now rewrite app_nil_r in Ex.
    + injection Ed as <- Ed. exfalso. apply H1. rewrite Ed.
      apply in_or_app. right. now left.
Qed.

(** The characters of the digits of an integer literal: digits and
    underscores, a digit last. *)
Lemma int_digits_shape (s : string) (b : bool) (acc z : Z) :
  Py.int_digits b acc s = Some z ->
  Forall (fun c => Py.is_digit c = true \/ c = "_"%char)
    (list_ascii_of_string s) /\
  (forall pre d,
     list_ascii_of_string s = (pre ++ [d])%list -> Py.is_digit d = true).
Proof.
  revert b acc. induction s as [|c s IH]; simpl; intros b acc H.
  - split; [constructor | intros [|? ?] d E; discriminate].
  - destruct (Ascii.eqb_spec c "_") as [-> | Hc].
    + destruct b; [discriminate|].
      destruct (IH _ _ H) as [F L]. split; [constructor; auto|].
      intros [|x pre] d E; simpl in E.
      * injection E as <- E. destruct s; [discriminate H | discriminate E].
      * injection E as <- E. eauto.
    + destruct (Py.is_digit c) eqn:D; [|discriminate].
      destruct (IH _ _ H) as [F L]. split; [constructor; auto|].
      intros [|x pre] d E; simpl in E.
      * now injection E as <- E.
      * injection E as <- E. eauto.
Qed.

Lemma body_shape (s : string) (z : Z) :
  Py.int_unsigned s = Some z ->
  ~ In ":"%char (list_ascii_of_string s) /\
  ~ In "-"%char (list_ascii_of_string s) /\
  (exists pre d, list_ascii_of_string s = (pre ++ [d])%list /\ d <> "-"%char).
Proof.
  unfold Py.int_unsigned. destruct s as [|c s]; [discriminate|].
  destruct (Ascii.eqb c "_"); [discriminate|]. intros H.
  destruct (int_digits_shape _ _ _ _ H) as [F L].
  assert (N : forall x, In x (list_ascii_of_string (String c s)) ->
                x <> ":"%char /\ x <> "-"%char).
  { intros x Hx. rewrite Forall_forall in F.
    destruct (F x Hx) as [D | ->]; [|split; discriminate].
    split; intros ->; discriminate D. }
  split; [intros Hin; now destruct (N _ Hin)|].
  split; [intros Hin; now destruct (N _ Hin)|].
  destruct (exists_last (l := list_ascii_of_string (String c s)))
    as [pre [d E]];
    [discriminate|].
  exists pre, d. split; trivial.
  intros ->. specialize (L pre _ E). discriminate L.
Qed.

Lemma coordinate_has_shape (s : string) (z : Z) :
  no_space s = true -> Py.int_opt s = Some z ->
  coordinate_shape (list_ascii_of_string s).
Proof.
  intros Hs H. rewrite int_opt_unfold, int_strip_no_space in H by exact Hs.
  destruct s as [|c s]; [discriminate|].
  assert (Signed : forall sg, ~ In ":"%char [sg] ->
            (exists z', Py.int_unsigned s = Some z') ->
            coordinate_shape (sg :: list_ascii_of_string s)).
  { intros sg Hsg [z' Hz].
    destruct (body_shape _ _ Hz) as [C [M [pre [d [E Hd]]]]].
    split; [|split].
    - intros [E0 | Hin]; [apply Hsg; left; exact E0 | auto].
    - intros [|x p] post Ep; trivial. simpl in Ep. injection Ep as _ Ep.
      exfalso. apply M. rewrite Ep. apply in_or_app. right. now left.
    - exists (sg :: pre), d. split; [simpl; congruence | exact Hd]. }
  destruct (Ascii.eqb_spec c "-") as [-> | Hm].
  - apply Signed.
    + intros [E | []]; discriminate E.
    + destruct (Py.int_unsigned s) as [z'|]; [eauto | discriminate].
  - destruct (Ascii.eqb_spec c "+") as [-> | Hp].
    + apply Signed; [intros [E | []]; discriminate E | eauto].
    + destruct (body_shape _ _ H) as [C [M [pre [d [E Hd]]]]].
      split; [exact C|]. split; [|now exists pre, d].
      intros p post Ep. exfalso. apply M. rewrite Ep.
      apply in_or_app. right. now left.
Qed.

(** The key is cut into its four fields in one way only, when the strands
    hold no colon and the coordinates are integers. *)
Lemma make_key_inj (c1 s1 e1 d1 c2 s2 e2 d2 : string) :
  coordinate_shape (list_ascii_of_string s1) ->
  coordinate_shape (list_ascii_of_string s2) ->
  coordinate_shape (list_ascii_of_string e1) ->
  coordinate_shape (list_ascii_of_string e2) ->
  has_char ":" d1 = false -> has_char ":" d2 = false ->
  make_key c1 s1 e1 d1 = make_key c2 s2 e2 d2 ->
  c1 = c2 /\ s1 = s2 /\ e1 = e2 /\ d1 = d2.
Proof.
  intros [S1c [_ [p1 [x1 [S1l S1d]]]]] [S2c [_ [p2 [x2 [S2l S2d]]]]]
         [_ [E1m _]] [_ [E2m _]] D1 D2 K.
  apply has_char_In in D1. apply has_char_In in D2.
  apply (f_equal list_ascii_of_string) in K. unfold make_key in K.
  rewrite !chars_app in K. simpl in K.
  assert (K1 :
    (((list_ascii_of_string c1 ++ ":"%char :: list_ascii_of_string s1)
      ++ "-"%char :: list_ascii_of_string e1)
     ++ ":"%char :: list_ascii_of_string d1 =
     ((list_ascii_of_string c2 ++ ":"%char :: list_ascii_of_string s2)
      ++ "-"%char :: list_ascii_of_string e2)
     ++ ":"%char :: list_ascii_of_string d2)%list).
  { repeat (rewrite <- app_assoc; simpl). exact K. }
  apply cut_at_last in K1 as [K2 Ed]; trivial.
  assert (K3 :
    (list_ascii_of_string c1 ++ ":"%char :: list_ascii_of_string s1 =
     list_ascii_of_string c2 ++ ":"%char :: list_ascii_of_string s2)%list /\
    list_ascii_of_string e1 = list_ascii_of_string e2).
  { apply app_eq_app in K2 as [l [[Ex Ee] | [Ex Ee]]].
    - destruct l as [|a l]; simpl in Ee.
      + injection Ee as Ee. rewrite app_nil_r in Ex. now split.
      + injection Ee as <- Ee. exfalso.
        pose proof (E2m _ _ Ee) as ->. simpl in Ex.
        rewrite S1l in Ex.
        change (":"%char :: p1 ++ [x1])%list
          with ((":"%char :: p1) ++ [x1])%list in Ex.
        rewrite app_assoc in Ex.
        apply app_inj_tail in Ex as [_ Ex]. contradiction.
    - destruct l as [|a l]; simpl in Ee.
      + injection Ee as Ee. rewrite app_nil_r in Ex. now split.
      + injection Ee as <- Ee. exfalso.
        pose proof (E1m _ _ Ee) as ->. simpl in Ex.
        rewrite S2l in Ex.
        change (":"%char :: p2 ++ [x2])%list
          with ((":"%char :: p2) ++ [x2])%list in Ex.
        rewrite app_assoc in Ex.
        apply app_inj_tail in Ex as [_ Ex]. contradiction. }
  destruct K3 as [K3 Ee].
  apply cut_at_last in K3 as [Ec Es]; trivial.
  repeat split; now apply chars_inj.
Qed.

End Keys.

(** X11.  When the strand fields hold no colon (as [+], [-] and [.] do),
    the key of an accepted record determines its chrom, start, end and strand
    fields: two accepted records have the same key, and so share an entry,
    exactly when these four fields are the same text. *)
Theorem key_unambiguous (m : Z) (l1 l2 k1 k2 : string) (r1 r2 : junction) :
  accepted m l1 = Some (k1, r1) -> accepted m l2 = Some (k2, r2) ->
  has_char ":" (strand r1) = false -> has_char ":" (strand r2) = false ->
  (k1 = k2 <->
   chr r1 = chr r2 /\ start r1 = start r2 /\ end_ r1 = end_ r2 /\
   strand r1 = strand r2).
Proof.
  intros A1 A2 D1 D2.
  assert (Shape : forall l k r, accepted m l = Some (k, r) ->
            k = make_key (chr r) (start r) (end_ r) (strand r) /\
            coordinate_shape (list_ascii_of_string (start r)) /\
            coordinate_shape (list_ascii_of_string (end_ r))).
  { intros l k r A.
    destruct (accepted_inv m _ _ _ A)
      as (f5 & f6 & f7 & f8 & e & s & a & Hf & Hk & He & Hs & _).
    pose proof (fields_are_tokens l) as Ft. rewrite Hf in Ft.
    inversion Ft as [|? ? P0 Ft0]; subst.
    inversion Ft0 as [|? ? P1 Ft1]; subst.
    inversion Ft1 as [|? ? P2 Ft2]; subst.
    unfold Py.int in He, Hs.
    destruct (Py.int_opt (end_ r)) as [e'|] eqn:He'; [|discriminate].
    destruct (Py.int_opt (start r)) as [s'|] eqn:Hs'; [|discriminate].
    split; [reflexivity|]. split.
    - apply (coordinate_has_shape _ s'); trivial.
      now apply is_token_no_space.
    - apply (coordinate_has_shape _ e'); trivial.
      now apply is_token_no_space. }
  destruct (Shape _ _ _ A1) as [-> [S1 E1]].
  destruct (Shape _ _ _ A2) as [-> [S2 E2]].
  split.
  - now apply make_key_inj.
  - intros [-> [-> [-> ->]]]. reflexivity.
Qed.

Lemma key_unambiguous_witness :
  "chr1:100-200:+" = "chr1:0100-200:+" <->
  "chr1" = "chr1" /\ "100" = "0100" /\ "200" = "200" /\ "+" = "+".
Proof.
  exact (key_unambiguous 50 line_nine line_padded
           "chr1:100-200:+" "chr1:0100-200:+"
           (mkJunction "chr1" "100" "200" "+" "GT/AG" 3 1 10)
           (mkJunction "chr1" "0100" "200" "+" "GT/AG" 4 2 12)
           eq_refl eq_refl eq_refl eq_refl).
Defined.

(** A strand field with a colon can make two junctions of different chrom
    share a key, and so an entry. *)
Example key_collision :
  read_junctions
    [["x:1-2 3 4 + GT/AG 0 3 1 10"; "x 1 2 3-4:+ GT/AG 0 4 2 12"]] 1 =
  Ok [("x:1-2:3-4:+", mkJunction "x:1-2" "3" "4" "+" "GT/AG" 7 3 12)].
Proof. reflexivity. Qed.

(** X12.  The entry of a key in the final mapping pools all accepted
    lines with that key and nothing else: its unique and multimap coverage
    are the sums over these lines and its overhang is their largest
    overhang. *)
Theorem pooled_counters (m : Z) (files : list (list string))
  (acc : JunctionHash) (k : string) (v : junction) :
  read_junctions files m = Ok acc ->
  lookup k acc = Some v ->
  coverage v =
    total coverage (matching k (accepted_records m (concat files))) /\
  multimap_coverage v =
    total multimap_coverage
      (matching k (accepted_records m (concat files))) /\
  Some (alignment_overhang v) =
    maximum alignment_overhang
      (matching k (accepted_records m (concat files))).
Proof.
  intros Hrun Hl.
  destruct (read_junctions_Ok_inv m _ _ Hrun) as [_ Hacc].
  pose proof (stored_under_key k (accepted_records m (concat files))) as S.
  rewrite <- Hacc in S.
  destruct (matching k (accepted_records m (concat files))) as [|r l];
    [congruence|].
  destruct S as [w [Ew [_ [C [M A]]]]]. rewrite Hl in Ew.
  injection Ew as <-. auto.
Qed.

Lemma pooled_counters_witness :
  7 = total coverage
        (matching "chr1:100-200:+"
           (accepted_records 50 (concat [[line_a]; [line_b]]))) /\
  3 = total multimap_coverage
        (matching "chr1:100-200:+"
           (accepted_records 50 (concat [[line_a]; [line_b]]))) /\
  Some 12 = maximum alignment_overhang
        (matching "chr1:100-200:+"
           (accepted_records 50 (concat [[line_a]; [line_b]]))).
Proof.
  exact (pooled_counters 50 [[line_a]; [line_b]]
    [("chr1:100-200:+", mkJunction "chr1" "100" "200" "+" "GT/AG" 7 3 12)]
    "chr1:100-200:+" (mkJunction "chr1" "100" "200" "+" "GT/AG" 7 3 12)
    eq_refl eq_refl).
Defined.

(** X13.  Only the sequence of lines matters, not how it is cut into
    files: a run over several files is the run over the single file of their
    lines, one file after the other. *)
Theorem file_boundaries_irrelevant (m mc : Z) (files : list (list string)) :
  run files m mc = run [concat files] m mc.
Proof.
  unfold run, read_junctions, read_junctions_state.
  rewrite !read_files_concat. simpl. now rewrite app_nil_r.
Qed.

(** X14.  The lines may be reordered at will, within the files and
    across them: a run over the same lines in another order succeeds as
    well, with the same keys and, key by key, the same three counters. *)
Theorem line_order_independence (m : Z) (files1 files2 : list (list string))
  (acc1 : JunctionHash) :
  Permutation (concat files1) (concat files2) ->
  read_junctions files1 m = Ok acc1 ->
  exists acc2,
    read_junctions files2 m = Ok acc2 /\
    Permutation (keys acc1) (keys acc2) /\
    forall k, agree_on k acc1 acc2.
Proof.
  intros Pl H1.
  destruct (read_junctions_Ok_inv m _ _ H1) as [Hok1 ->].
  rewrite (read_junctions_ok m _ (forallb_Permutation _ _ _ Pl Hok1)).
  eexists. split; [reflexivity|].
  pose proof (accepted_records_Permutation m _ _ Pl) as Pr.
  set (rs1 := accepted_records m (concat files1)) in *.
  set (rs2 := accepted_records m (concat files2)) in *.
  assert (L : forall k, option_map counters (lookup k (ingest_all rs1 [])) =
                        option_map counters (lookup k (ingest_all rs2 []))).
  { intros k. rewrite !lookup_ingest_all. simpl.
    pose proof (matching_Permutation k _ _ Pr) as Pm.
    pose proof (total_Permutation coverage _ _ Pm) as Tc.
    pose proof (total_Permutation multimap_coverage _ _ Pm) as Tm.
    pose proof (maximum_Permutation alignment_overhang _ _ Pm) as Ta.
    destruct (matching k rs1) as [|r1 t1];
      destruct (matching k rs2) as [|r2 t2].
    - reflexivity.
    - apply Permutation_nil in Pm. discriminate.
    - symmetry in Pm. apply Permutation_nil in Pm. discriminate.
    - simpl.
      destruct (merge_into_counters t1 r1) as [w1 [E1 [_ [C1 [M1 A1]]]]].
      destruct (merge_into_counters t2 r2) as [w2 [E2 [_ [C2 [M2 A2]]]]].
      rewrite E1, E2. unfold counters. simpl. simpl in Ta.
      unfold total in Tc, Tm. simpl in Tc, Tm. fold (total coverage t1) in Tc.
      fold (total coverage t2) in Tc.
      fold (total multimap_coverage t1) in Tm.
      fold (total multimap_coverage t2) in Tm.
      assert (alignment_overhang w1 = alignment_overhang w2).
      { rewrite A1, A2.
        destruct (maximum alignment_overhang t1),
                 (maximum alignment_overhang t2);
          injection Ta as Ta; lia. }
      do 2 f_equal; congruence. }
  assert (A : forall k, agree_on k (ingest_all rs1 []) (ingest_all rs2 [])).
  { intros k. split; [|apply L]. specialize (L k).
    rewrite <- !lookup_Some_keys.
    destruct (lookup k (ingest_all rs1 [])), (lookup k (ingest_all rs2 []));
      try discriminate; split; intros [v Hv]; try discriminate; eauto. }
  split; [|exact A].
  apply NoDup_Permutation.
  - apply NoDup_keys_ingest_all. constructor.
  - apply NoDup_keys_ingest_all. constructor.
  - intros k. apply A.
Qed.

Lemma line_order_independence_witness :
  exists acc2,
    read_junctions [[line_b; "chr2 100 200 + GT/AG 0 3 1 10"; line_a]] 50
      = Ok acc2 /\
    Permutation ["chr1:100-200:+"; "chr2:100-200:+"] (keys acc2) /\
    forall k,
      agree_on k
        [("chr1:100-200:+", mkJunction "chr1" "100" "200" "+" "GT/AG" 7 3 12);
         ("chr2:100-200:+", mkJunction "chr2" "100" "200" "+" "GT/AG" 3 1 10)]
        acc2.
Proof.
  refine (line_order_independence 50
    [[line_a; line_b]; ["chr2 100 200 + GT/AG 0 3 1 10"]]
    [[line_b; "chr2 100 200 + GT/AG 0 3 1 10"; line_a]]
    [("chr1:100-200:+", mkJunction "chr1" "100" "200" "+" "GT/AG" 7 3 12);
     ("chr2:100-200:+", mkJunction "chr2" "100" "200" "+" "GT/AG" 3 1 10)]
    _ eq_refl).
  simpl.
  apply (Permutation_cons_app [line_b; "chr2 100 200 + GT/AG 0 3 1 10"] []).
  apply Permutation_refl.
Defined.

(** ** Reordered files: what stays and what may change *)

Section Reordered.

Lemma NoDup_keys_filter (p : string * junction -> bool) (acc : JunctionHash) :
  NoDup (keys acc) -> NoDup (map fst (filter p acc)).
Proof.
  unfold keys. induction acc as [|[k v] acc IH]; simpl; intros H.
  - constructor.
  - inversion H as [|? ? Hk Hnd]; subst.
    destruct (p (k, v)); simpl; auto.
    constructor; auto.
    intros Hin. apply Hk. apply in_map_iff in Hin as [kv [E Hf]].
    apply filter_In in Hf as [Hf _]. apply in_map_iff. eauto.
Qed.

(** The keys of the entries that the writer emits. *)
Lemma emitted_key_lookup (mc : Z) (acc : JunctionHash) (k : string) :
  NoDup (keys acc) ->
  (In k (map fst (filter (fun kv => mc <=? coverage (snd kv)) acc)) <->
   exists v, lookup k acc = Some v /\ mc <= coverage v).
Proof.
  intros Hnd. rewrite in_map_iff. split.
  - intros [[k' v] [E Hf]]. simpl in E. subst k'.
    apply filter_In in Hf as [Hin Hc]. simpl in Hc. apply Z.leb_le in Hc.
    exists v. split; [now apply In_lookup | exact Hc].
  - intros [v [Hl Hc]]. exists (k, v). split; trivial.
    apply filter_In. split; [now apply lookup_In|].
    simpl. now apply Z.leb_le.
Qed.

Variable m : Z.

(** Two accepted lines with one key and strands without colon have the same
    chrom, start, end and strand fields. *)
Lemma same_key_same_fields (l1 l2 k : string) (r1 r2 : junction) :
  accepted m l1 = Some (k, r1) -> accepted m l2 = Some (k, r2) ->
  has_char ":" (strand r1) = false -> has_char ":" (strand r2) = false ->
  chr r1 = chr r2 /\ start r1 = start r2 /\ end_ r1 = end_ r2 /\
  strand r1 = strand r2.
Proof.
  intros A1 A2 D1 D2.
  assert (Shape : forall l r, accepted m l = Some (k, r) ->
            k = make_key (chr r) (start r) (end_ r) (strand r) /\
            coordinate_shape (list_ascii_of_string (start r)) /\
            coordinate_shape (list_ascii_of_string (end_ r))).
  { intros l r A.
    destruct (accepted_inv m _ _ _ A)
      as (f5 & f6 & f7 & f8 & e & s & a & Hf & Hk & He & Hs & _).
    pose proof (fields_are_tokens l) as Ft. rewrite Hf in Ft.
    inversion Ft as [|? ? P0 Ft0]; subst.
    inversion Ft0 as [|? ? P1 Ft1]; subst.
    inversion Ft1 as [|? ? P2 Ft2]; subst.
    unfold Py.int in He, Hs.
    destruct (Py.int_opt (end_ r)) as [e'|] eqn:He'; [|discriminate].
    destruct (Py.int_opt (start r)) as [s'|] eqn:Hs'; [|discriminate].
    split; [reflexivity|]. split.
    - apply (coordinate_has_shape _ s'); trivial.
      now apply is_token_no_space.
    - apply (coordinate_has_shape _ e'); trivial.
      now apply is_token_no_space. }
  destruct (Shape _ _ A1) as [K1 [S1 E1]].
  destruct (Shape _ _ A2) as [K2 [S2 E2]].
  apply make_key_inj; trivial. congruence.
Qed.

End Reordered.

(** C4, as the claim states it, fails: more than the splice-site code
    and the order of the lines can depend on the order of the files.  Two
    lines with different chrom, coordinates and strand build one key; which
    of them gives the entry its text columns depends on the order, with one
    splice-site code and a single written line in both orders. *)
Lemma colliding_keys_counterexample :
  Permutation [["x:1-2 3 4 + GT/AG 0 3 1 10"]; ["x 1 2 3-4:+ GT/AG 0 4 2 12"]]
              [["x 1 2 3-4:+ GT/AG 0 4 2 12"]; ["x:1-2 3 4 + GT/AG 0 3 1 10"]] /\
  read_junctions
    [["x:1-2 3 4 + GT/AG 0 3 1 10"]; ["x 1 2 3-4:+ GT/AG 0 4 2 12"]] 1 =
  Ok [("x:1-2:3-4:+", mkJunction "x:1-2" "3" "4" "+" "GT/AG" 7 3 12)] /\
  read_junctions
    [["x 1 2 3-4:+ GT/AG 0 4 2 12"]; ["x:1-2 3 4 + GT/AG 0 3 1 10"]] 1 =
  Ok [("x:1-2:3-4:+", mkJunction "x" "1" "2" "3-4:+" "GT/AG" 7 3 12)] /\
  run [["x:1-2 3 4 + GT/AG 0 3 1 10"]; ["x 1 2 3-4:+ GT/AG 0 4 2 12"]] 1 5 =
  Ok ("x:1-2" ++ TAB ++ "3" ++ TAB ++ "4" ++ TAB ++ "+" ++ TAB ++ "GT/AG"
      ++ TAB ++ "1" ++ TAB ++ "7" ++ TAB ++ "3" ++ TAB ++ "12" ++ NL) /\
  run [["x 1 2 3-4:+ GT/AG 0 4 2 12"]; ["x:1-2 3 4 + GT/AG 0 3 1 10"]] 1 5 =
  Ok ("x" ++ TAB ++ "1" ++ TAB ++ "2" ++ TAB ++ "3-4:+" ++ TAB ++ "GT/AG"
      ++ TAB ++ "1" ++ TAB ++ "7" ++ TAB ++ "3" ++ TAB ++ "12" ++ NL).
Proof.
  split; [apply perm_swap|]. repeat split.
Qed.

(** C4, amended.  Supplying the same files in another order changes
    neither whether the reading succeeds, nor the key strings of the final
    mapping, nor any key's summed unique coverage, summed multimap coverage
    and largest overhang, nor the keys of the entries that are written.
    When no strand field holds a colon, the chrom, start, end and strand
    columns of every entry are the same in both orders as well, so that only
    the splice-site code that is kept and the order of the entries, and with
    it of the written lines, may differ. *)
Theorem order_independence (m : Z) (files1 files2 : list (list string))
  (acc1 : JunctionHash) :
  Permutation files1 files2 ->
  read_junctions files1 m = Ok acc1 ->
  exists acc2,
    read_junctions files2 m = Ok acc2 /\
    Permutation (keys acc1) (keys acc2) /\
    (forall k, agree_on k acc1 acc2) /\
    (forall mc,
       Permutation
         (map fst (filter (fun kv => mc <=? coverage (snd kv)) acc1))
         (map fst (filter (fun kv => mc <=? coverage (snd kv)) acc2))) /\
    ((forall line f0 f1 f2 f3 f4 f5 f6 f7 f8,
        In line (concat files1) ->
        Py.split (Py.strip line) = [f0; f1; f2; f3; f4; f5; f6; f7; f8] ->
        has_char ":" f3 = false) ->
     forall k v1 v2,
       lookup k acc1 = Some v1 -> lookup k acc2 = Some v2 ->
       chr v1 = chr v2 /\ start v1 = start v2 /\ end_ v1 = end_ v2 /\
       strand v1 = strand v2 /\ counters v1 = counters v2).
Proof.
  intros P H1.
  destruct (permuted_files_agree m _ _ _ P H1) as [acc2 [H2 [Pk A]]].
  exists acc2. split; [exact H2|]. split; [exact Pk|]. split; [exact A|].
  assert (N1 : NoDup (keys acc1)).
  { destruct (read_junctions_Ok_inv m _ _ H1) as [_ ->].
    apply NoDup_keys_ingest_all. constructor. }
  assert (N2 : NoDup (keys acc2)).
  { destruct (read_junctions_Ok_inv m _ _ H2) as [_ ->].
    apply NoDup_keys_ingest_all. constructor. }
  assert (C : forall k v1 v2, lookup k acc1 = Some v1 ->
                lookup k acc2 = Some v2 -> counters v1 = counters v2).
  { intros k v1 v2 L1 L2. destruct (A k) as [_ E].
    rewrite L1, L2 in E. simpl in E. congruence. }
  split.
  - intros mc. apply NoDup_Permutation.
    + now apply NoDup_keys_filter.
    + now apply NoDup_keys_filter.
    + intros k. rewrite !emitted_key_lookup by assumption.
      destruct (A k) as [Hk _]. rewrite <- !lookup_Some_keys in Hk.
      split.
      * intros [v1 [L1 Hc]]. destruct (proj1 Hk (ex_intro _ v1 L1)) as [v2 L2].
        exists v2. split; trivial.
        pose proof (C _ _ _ L1 L2) as E. unfold counters in E.
        injection E as E _ _. lia.
      * intros [v2 [L2 Hc]]. destruct (proj2 Hk (ex_intro _ v2 L2)) as [v1 L1].
        exists v1. split; trivial.
        pose proof (C _ _ _ L1 L2) as E. unfold counters in E.
        injection E as E _ _. lia.
  - intros Hcolon k v1 v2 L1 L2.
    destruct (entry_origin m _ _ _ _ H1 (lookup_In _ _ _ L1))
      as [l1 [r1 [In1 [A1 T1]]]].
    destruct (entry_origin m _ _ _ _ H2 (lookup_In _ _ _ L2))
      as [l2 [r2 [In2 [A2 T2]]]].
    assert (In2' : In l2 (concat files1)).
    { apply Permutation_in with (l := concat files2); trivial.
      symmetry. now apply Permutation_concat_files. }
    assert (Hs : forall l r, In l (concat files1) ->
                 accepted m l = Some (k, r) -> has_char ":" (strand r) = false).
    { intros l r Hl Ha.
      destruct (accepted_inv m _ _ _ Ha)
        as (f5 & f6 & f7 & f8 & e & s & a & Hf & _).
      exact (Hcolon _ _ _ _ _ _ _ _ _ _ Hl Hf). }
    destruct (same_key_same_fields m _ _ _ _ _ A1 A2
                (Hs _ _ In1 A1) (Hs _ _ In2' A2)) as [Ec [Es [Ee Ed]]].
    unfold text_columns in T1, T2.
    injection T1 as -> -> -> -> _. injection T2 as -> -> -> -> _.
    repeat split; trivial. now apply (C k).
Qed.

Lemma order_independence_witness :
  exists acc2,
    read_junctions [[line_b]; [line_a]] 50 = Ok acc2 /\
    Permutation ["chr1:100-200:+"] (keys acc2) /\
    (forall k,
       agree_on k
         [("chr1:100-200:+", mkJunction "chr1" "100" "200" "+" "GT/AG" 7 3 12)]
         acc2) /\
    forall k v2,
      lookup k
        [("chr1:100-200:+", mkJunction "chr1" "100" "200" "+" "GT/AG" 7 3 12)]
        = Some (mkJunction "chr1" "100" "200" "+" "GT/AG" 7 3 12) ->
      lookup k acc2 = Some v2 ->
      "chr1" = chr v2 /\ "100" = start v2 /\ "200" = end_ v2 /\
      "+" = strand v2 /\ (7, 3, 12) = counters v2.
Proof.
  destruct (order_independence 50 [[line_a]; [line_b]] [[line_b]; [line_a]]
              [("chr1:100-200:+",
                mkJunction "chr1" "100" "200" "+" "GT/AG" 7 3 12)])
    as [acc2 [H2 [Pk [A [_ T]]]]].
  - apply perm_swap.
  - reflexivity.
  - exists acc2. split; [exact H2|]. split; [exact Pk|]. split; [exact A|].
    intros k v2 L1 L2.
    refine (T _ k _ v2 L1 L2).
    intros line f0 f1 f2 f3 f4 f5 f6 f7 f8 [<- | [<- | []]] Hf;
      vm_compute in Hf; injection Hf as <- <- <- <- <- <- <- <- <-;
      reflexivity.
Defined.
